(** * ics: decoding Apple's iCalendar format

    A shallow embedding of package [ics] (the decoder behind [ics-demo]):
    the line reader [decodeLine], the event decoder [decodeEvent], the
    calendar decoder [Decode] and the ordering [eventList.Less], together
    with the parts of the Go library they call ([bufio.Reader.ReadLine],
    [bufio.Reader.Peek], [strings.SplitN], [time.Parse], [sort.Sort]). *)

From Stdlib Require Import List Arith ZArith Lia Bool Ascii String.
From Stdlib Require Import Permutation Sorted.
Import ListNotations.

Open Scope string_scope.
Open Scope list_scope.

(** ** Bytes and strings *)

(** A Go [[]byte] is a list of bytes; a Go [string] is a [string]. *)
Definition bytes := list ascii.

Definition LF : ascii := "010"%char.
Definition CR : ascii := "013"%char.
Definition SP : ascii := " "%char.
Definition COLON : ascii := ":"%char.

(** [string(b)] and [[]byte(s)]. *)
Definition String_of (b : bytes) : string := string_of_list_ascii b.
Definition Bytes_of (s : string) : bytes := list_ascii_of_string s.

(** ** Errors *)

(** The error values the decoder can return: the two [io] sentinels,
    [bufio.ErrBufferFull] (internal to [ReadLine]), an [errors.New] value
    with its message, and a [*time.ParseError] with its message suffix. *)
Inductive error : Type :=
| io_EOF
| io_ErrUnexpectedEOF
| bufio_ErrBufferFull
| errors_New (msg : string)
| time_ParseError (value : string) (msg : string).

Definition error_eqb (a b : error) : bool :=
  match a, b with
  | io_EOF, io_EOF => true
  | io_ErrUnexpectedEOF, io_ErrUnexpectedEOF => true
  | bufio_ErrBufferFull, bufio_ErrBufferFull => true
  | errors_New m, errors_New m' => String.eqb m m'
  | time_ParseError v m, time_ParseError v' m' => String.eqb v v' && String.eqb m m'
  | _, _ => false
  end.

(** The three error kinds of the specification's taxonomy. *)
Inductive ErrorKind : Type := StructuralError | LineFormatError | ValueFormatError.

(** The kind of each error the decoder constructs: envelope problems and a
    premature end of input are structural, a blank, overlong or colon-less
    line is a line-format error, a timestamp [time.Parse] refuses is a
    value-format error.  [io.EOF] and [bufio.ErrBufferFull] never leave
    the line reader. *)
Definition kind_of (e : error) : option ErrorKind :=
  match e with
  | io_ErrUnexpectedEOF => Some StructuralError
  | errors_New m =>
      if String.eqb m "didn't find BEGIN:VCALENDAR" then Some StructuralError
      else if String.eqb m "unexpected END value" then Some StructuralError
      else if String.eqb m "unexpected long line" then Some LineFormatError
      else if String.eqb m "unexpected blank line" then Some LineFormatError
      else if String.eqb m "bad line, couldn't find key:value" then Some LineFormatError
      else None
  | time_ParseError _ _ => Some ValueFormatError
  | io_EOF | bufio_ErrBufferFull => None
  end.

(** ** Outcomes

    A Go call returns its results, or panics.  The loops of the decoder are
    written with a fuel argument; [OutOfFuel] marks a loop cut short, and
    the lemmas of section "Termination" show it is never the outcome of
    [decodeLine], [decodeEvent] or [Decode]. *)
Inductive outcome (A : Type) : Type :=
| Returns (a : A)
| Panics (msg : string)
| OutOfFuel.
Arguments Returns {A} a.
Arguments Panics {A} msg.
Arguments OutOfFuel {A}.

Definition bind {A B : Type} (m : outcome A) (k : A -> outcome B) : outcome B :=
  match m with
  | Returns a => k a
  | Panics msg => Panics msg
  | OutOfFuel => OutOfFuel
  end.

Notation "'do' x <- m ; k" := (bind m (fun x => k))
  (at level 10, x pattern, m at level 100, k at level 200).

(** ** bufio.Reader *)

Module bufio.

(** A [*bufio.Reader] over an in-memory input: the size of its buffer and
    the bytes not yet consumed.  The underlying reader hands out its bytes
    and then reports [io.EOF] on a read of its own, as [strings.Reader],
    [bytes.Reader] and [os.File] do. *)
Record Reader : Type := mkReader { size : nat; input : bytes }.

Definition defaultBufSize : nat := 4096.

(** [bufio.NewReader(rd)]. *)
Definition NewReader (rd : bytes) : Reader := mkReader defaultBufSize rd.

(** [ReadSlice('\n')] with [n] bytes of buffer left: the slice up to and
    including the delimiter, the bytes left in the input, and the error.
    A buffer filled without a delimiter is [ErrBufferFull]; an input
    exhausted first is [io.EOF]. *)
Fixpoint ReadSlice (n : nat) (s : bytes) : bytes * bytes * option error :=
  match n with
  | 0 => ([], s, Some bufio_ErrBufferFull)
  | S n' =>
      match s with
      | [] => ([], [], Some io_EOF)
      | c :: s' =>
          if Ascii.eqb c LF then ([c], s', None)
          else let '(line, rest, err) := ReadSlice n' s' in (c :: line, rest, err)
      end
  end.

(** [line[:len(line)-drop]] for the line end of [ReadLine]: a final
    newline is dropped, with the carriage return before it if there is one. *)
Definition dropLineEnd (line : bytes) : bytes :=
  match rev line with
  | c :: r =>
      if Ascii.eqb c LF then
        match r with
        | c' :: r' => if Ascii.eqb c' CR then rev r' else rev r
        | [] => rev r
        end
      else line
  | [] => line
  end.

(** [ReadLine]: the line without its end, [isPrefix], the error, and the
    reader afterwards.  On [ErrBufferFull] the full buffer is returned with
    [isPrefix] set, a final carriage return being left in the reader. *)
Definition ReadLine (r : Reader) : bytes * bool * option error * Reader :=
  let '(line, rest, err) := ReadSlice (size r) (input r) in
  match err with
  | Some bufio_ErrBufferFull =>
      match rev line with
      | c :: l' =>
          if Ascii.eqb c CR then (rev l', true, None, mkReader (size r) (CR :: rest))
          else (line, true, None, mkReader (size r) rest)
      | [] => (line, true, None, mkReader (size r) rest)
      end
  | _ =>
      match line with
      | [] => ([], false, err, mkReader (size r) rest)
      | _ :: _ => (dropLineEnd line, false, None, mkReader (size r) rest)
      end
  end.

(** [Peek(1)]: the next byte without consuming it, or [io.EOF]. *)
Definition Peek1 (r : Reader) : bytes * option error :=
  match input r with
  | [] => ([], Some io_EOF)
  | c :: _ => ([c], None)
  end.

End bufio.

(** ** strings.SplitN *)

Module strings.

(** The text before the first colon and the text after it. *)
Fixpoint cut_colon (s : string) : option (string * string) :=
  match s with
  | EmptyString => None
  | String c s' =>
      if Ascii.eqb c COLON then Some (EmptyString, s')
      else match cut_colon s' with
           | Some (k, v) => Some (String c k, v)
           | None => None
           end
  end.

(** [strings.SplitN(s, ":", 2)]: at most two substrings, the second one
    the unsplit remainder. *)
Definition SplitN_colon_2 (s : string) : list string :=
  match cut_colon s with
  | Some (k, v) => [k; v]
  | None => [s]
  end.

End strings.

(** ** decodeLine *)

(** The results of [decodeLine] and the reader it leaves behind. *)
Definition line_result : Type := string * string * option error * bufio.Reader.

(** The statements after the loop of [decodeLine]: split the logical line
    at its first colon. *)
Definition decodeLine_split (buf : bytes) (r : bufio.Reader) : line_result :=
  let p := strings.SplitN_colon_2 (String_of buf) in
  match p with
  | [k; v] => (k, v, None, r)
  | _ => ("", "", Some (errors_New "bad line, couldn't find key:value"), r)
  end.

(** [if b[0] == ' ' { b = b[1:] }]: the line without one leading space. *)
Definition stripSP (l : bytes) : bytes :=
  match l with
  | c :: l' => if Ascii.eqb c SP then l' else l
  | [] => l
  end.

(** One pass through the loop of [decodeLine], [buf] being the bytes
    written to the buffer so far and [again] the next pass: read a physical
    line, refuse a long or blank one, strip one leading space, append, and
    go on while the next byte is a space. *)
Definition decodeLine_body (again : bytes -> bufio.Reader -> outcome line_result)
  (buf : bytes) (r : bufio.Reader) : outcome line_result :=
  let '(b, isPrefix, err, r) := bufio.ReadLine r in
  match err with
  | Some e =>
      Returns ("", "",
               Some (if error_eqb e io_EOF then io_ErrUnexpectedEOF else e), r)
  | None =>
      if isPrefix then
        Returns ("", "", Some (errors_New "unexpected long line"), r)
      else if Nat.eqb (List.length b) 0 then
        Returns ("", "", Some (errors_New "unexpected blank line"), r)
      else
        let b := stripSP b in
        let buf := buf ++ b in
        let '(b, err) := bufio.Peek1 r in
        match err, b with
        | None, c :: _ =>
            if Ascii.eqb c SP then again buf r
            else Returns (decodeLine_split buf r)
        | _, _ => Returns (decodeLine_split buf r)
        end
  end.

Fixpoint decodeLine_loop (fuel : nat) (buf : bytes) (r : bufio.Reader)
  : outcome line_result :=
  match fuel with
  | 0 => OutOfFuel
  | S fuel' => decodeLine_body (decodeLine_loop fuel') buf r
  end.

(** [decodeLine] entered with [buf] already in the buffer. *)
Definition decodeLine_from (buf : bytes) (r : bufio.Reader) : outcome line_result :=
  decodeLine_loop (S (List.length (bufio.input r))) buf r.

Definition decodeLine (r : bufio.Reader) : outcome line_result :=
  decodeLine_from [] r.

(** The end of a pass of [decodeLine] once the physical line is in the
    buffer: peek at the next byte, fold in the next physical line if it is
    a space, split the logical line otherwise. *)
Definition decodeLine_next (buf : bytes) (r : bufio.Reader) : outcome line_result :=
  match bufio.input r with
  | c :: _ => if Ascii.eqb c SP then decodeLine_from buf r
              else Returns (decodeLine_split buf r)
  | [] => Returns (decodeLine_split buf r)
  end.

(** [logical_line buf r L r']: starting with [buf] in the buffer, the loop
    of [decodeLine] reads physical lines from [r] without error and leaves
    it with the finished logical line [L] in the buffer and the reader at
    [r']. *)
Inductive logical_line : bytes -> bufio.Reader -> bytes -> bufio.Reader -> Prop :=
| logical_last : forall buf r b r',
    bufio.ReadLine r = (b, false, None, r') ->
    b <> [] ->
    (forall c rest, bufio.input r' = c :: rest -> c <> SP) ->
    logical_line buf r (buf ++ stripSP b) r'
| logical_more : forall buf r b r' rest L r'',
    bufio.ReadLine r = (b, false, None, r') ->
    b <> [] ->
    bufio.input r' = SP :: rest ->
    logical_line (buf ++ stripSP b) r' L r'' ->
    logical_line buf r L r''.

(** ** time *)

Module time.

Local Open Scope Z_scope.

(** A [time.Time] in UTC without monotonic reading: the seconds elapsed
    since January 1, year 1, 00:00:00 UTC and the nanoseconds within the
    second.  The zero [Time] is [mkTime 0 0]. *)
Record Time : Type := mkTime { sec : Z; nsec : Z }.

Definition zero : Time := mkTime 0 0.

Definition IsZero (t : Time) : bool := (sec t =? 0) && (nsec t =? 0).

Definition Before (t u : Time) : bool :=
  (sec t <? sec u) || ((sec t =? sec u) && (nsec t <? nsec u)).

Definition isLeap (year : Z) : bool :=
  (year mod 4 =? 0) && (negb (year mod 100 =? 0) || (year mod 400 =? 0)).

(** [daysBefore[m]]: the days of a non-leap year before month [m+1]. *)
Definition daysBefore (m : Z) : Z :=
  match m with
  | 0 => 0 | 1 => 31 | 2 => 59 | 3 => 90 | 4 => 120 | 5 => 151 | 6 => 181
  | 7 => 212 | 8 => 243 | 9 => 273 | 10 => 304 | 11 => 334 | _ => 365
  end.

Definition daysIn (m : Z) (year : Z) : Z :=
  if (m =? 2) && isLeap year then 29 else daysBefore m - daysBefore (m - 1).

(** [norm(hi, lo, base)]: [lo] brought into [0, base), the excess carried
    into [hi]. *)
Definition norm (hi lo base : Z) : Z * Z := (hi + lo / base, lo mod base).

(** The days from January 1, year 1 to January 1 of [year]. *)
Definition daysSinceYear1 (year : Z) : Z :=
  let y := year - 1 in
  365 * y + y / 4 - y / 100 + y / 400.

(** [time.Date(year, month, day, hour, min, sec, nsec, time.UTC)]. *)
Definition Date (year month day hour min sec nsec : Z) : Time :=
  let '(year, m) := norm year (month - 1) 12 in
  let month := m + 1 in
  let '(sec, nsec) := norm sec nsec 1000000000 in
  let '(min, sec) := norm min sec 60 in
  let '(hour, min) := norm hour min 60 in
  let '(day, hour) := norm day hour 24 in
  let d := daysSinceYear1 year + daysBefore (month - 1)
           + (if isLeap year && (3 <=? month) then 1 else 0)
           + (day - 1) in
  mkTime (d * 86400 + hour * 3600 + min * 60 + sec) nsec.

Definition is_digit (c : ascii) : bool :=
  (Ascii.leb "0" c && Ascii.leb c "9")%bool.

Definition digit_val (c : ascii) : Z := Z.of_N (N_of_ascii c) - 48.

(** [isDigit(s, i)]. *)
Definition isDigit (s : bytes) (i : nat) : bool :=
  match nth_error s i with
  | Some c => is_digit c
  | None => false
  end.

Definition commaOrPeriod (c : ascii) : bool :=
  (Ascii.eqb c "." || Ascii.eqb c ",")%bool.

(** [leadingInt(s)]: the leading digits of [s] as a number, and the rest.
    (Overflow past 63 bits does not arise: the decoder converts at most
    nine digits.) *)
Fixpoint leadingInt (x : Z) (s : bytes) : Z * bytes :=
  match s with
  | c :: s' => if is_digit c then leadingInt (x * 10 + digit_val c) s' else (x, s)
  | [] => (x, [])
  end.

(** [atoi(s)]: an optional sign and then digits only. *)
Definition atoi (s : bytes) : option Z :=
  let '(neg, s) :=
    match s with
    | c :: s' =>
        if (Ascii.eqb c "-" || Ascii.eqb c "+")%bool then (Ascii.eqb c "-", s')
        else (false, s)
    | [] => (false, s)
    end in
  let '(q, rem) := leadingInt 0 s in
  match rem with
  | _ :: _ => None
  | [] => Some (if neg then - q else q)
  end.

(** [getnum(s, fixed)]: a number of one or two digits, of exactly two when
    [fixed]. *)
Definition getnum (s : bytes) (fixed : bool) : option (Z * bytes) :=
  if negb (isDigit s 0) then None
  else if negb (isDigit s 1) then
    if fixed then None
    else match s with
         | c :: s' => Some (digit_val c, s')
         | [] => None
         end
  else match s with
       | c0 :: c1 :: s' => Some (digit_val c0 * 10 + digit_val c1, s')
       | _ => None
       end.

(** [skip(value, prefix)] for a one-byte prefix that is not a space. *)
Definition skip1 (value : bytes) (prefix : ascii) : option bytes :=
  match value with
  | c :: value' => if Ascii.eqb c prefix then Some value' else None
  | [] => None
  end.

(** The loop [for ; n < len(value) && isDigit(value, n); n++] of the
    fractional-second case, run from [n]. *)
Fixpoint scanDigits (fuel : nat) (value : bytes) (n : nat) : nat :=
  match fuel with
  | O => n
  | S fuel' =>
      if (Nat.ltb n (List.length value) && isDigit value n)%bool
      then scanDigits fuel' value (S n) else n
  end.

(** [parseNanoseconds(value, nbytes)], [value[0]] being a comma or a
    period: the digits after it, cut to nine, scaled to nanoseconds. *)
Definition parseNanoseconds (value : bytes) (nbytes : nat) : option Z :=
  if negb (match value with c :: _ => commaOrPeriod c | [] => false end) then None
  else
    let '(value, nbytes) :=
      if Nat.ltb 10 nbytes then (firstn 10 value, 10%nat) else (value, nbytes) in
    match atoi (skipn 1 (firstn nbytes value)) with
    | None => None
    | Some ns => Some (ns * 10 ^ Z.of_nat (10 - nbytes))
    end.

(** The special case of [stdZeroSecond]: a fractional second in the
    input where the layout has none (its next element is not a fractional
    second) is a comma or period followed by digits; it is converted and
    skipped.  The result is the nanoseconds and the rest of the value. *)
Definition fractionalSecond (value : bytes) : option (Z * bytes) :=
  if (Nat.leb 2 (List.length value)
      && match value with c :: _ => commaOrPeriod c | [] => false end
      && isDigit value 1)%bool
  then
    let n := scanDigits (List.length value) value 2 in
    match parseNanoseconds value n with
    | None => None
    | Some nsec => Some (nsec, skipn n value)
    end
  else Some (0, value).

(** The outcome of [Parse]: the time, or the [Message] of the
    [*ParseError] (empty for text that does not fit the layout element,
    the range complaint otherwise; the quoted remainder after "extra
    text" is left out). *)
Definition parsed : Type := (Time + string)%type.

Definition errBad : parsed := inr "".
Definition rangeErr (what : string) : parsed := inr (": " ++ what ++ " out of range")%string.

(** [time.Parse("20060102T150405Z", value)].  The layout splits into the
    elements [stdLongYear], [stdZeroMonth], [stdZeroDay], the literal "T"
    before [stdHour], [stdZeroMinute], [stdZeroSecond] and the literal
    suffix "Z"; each step below is the case of that element in the loop
    of [parse], followed by the checks after the loop.  With no zone
    element in the layout the time is in UTC. *)
Definition Parse_20060102T150405Z (value : bytes) : parsed :=
  (* stdLongYear *)
  if (Nat.ltb (List.length value) 4 || negb (isDigit value 0))%bool then errBad else
  match atoi (firstn 4 value) with
  | None => errBad
  | Some year =>
  let value := skipn 4 value in
  (* stdZeroMonth *)
  match getnum value true with
  | None => errBad
  | Some (month, value) =>
  if (month <=? 0) || (12 <? month) then rangeErr "month" else
  (* stdZeroDay *)
  match getnum value true with
  | None => errBad
  | Some (day, value) =>
  (* prefix "T", stdHour *)
  match skip1 value "T" with
  | None => errBad
  | Some value =>
  match getnum value false with
  | None => errBad
  | Some (hour, value) =>
  if (hour <? 0) || (24 <=? hour) then rangeErr "hour" else
  (* stdZeroMinute *)
  match getnum value true with
  | None => errBad
  | Some (min, value) =>
  if (min <? 0) || (60 <=? min) then rangeErr "minute" else
  (* stdZeroSecond *)
  match getnum value true with
  | None => errBad
  | Some (sec, value) =>
  if (sec <? 0) || (60 <=? sec) then rangeErr "second" else
  (* a fractional second in the input though the layout has none *)
  match fractionalSecond value with
  | None => errBad
  | Some (nsec, value) =>
  (* literal suffix "Z", then nothing more *)
  match skip1 value "Z" with
  | None => errBad
  | Some value =>
  match value with
  | _ :: _ => inr ": extra text"%string
  | [] =>
  (* validate the day of the month *)
  if (day <? 1) || (daysIn month year <? day) then inr ": day out of range"%string
  else inl (Date year month day hour min sec nsec)
  end end end end end end end end end end.

Definition Parse (value : string) : Time * option error :=
  match Parse_20060102T150405Z (Bytes_of value) with
  | inl t => (t, None)
  | inr msg => (zero, Some (time_ParseError value msg))
  end.

End time.

(** ** The decoder *)

Record Event : Type := mkEvent {
  UID : string;
  Start : time.Time;
  End_ : time.Time;
  Summary : string;
  Location : string;
  Description : string
}.

Record Calendar : Type := mkCalendar { Events : list Event }.

(** [new(Event)] and [new(Calendar)]: every field at its zero value. *)
Definition new_Event : Event := mkEvent "" time.zero time.zero "" "" "".
Definition new_Calendar : Calendar := mkCalendar [].

(** [decodeTime(value)]. *)
Definition decodeTime (value : string) : time.Time * option error :=
  time.Parse value.

(** What one pass through the [switch] of [decodeEvent] does: return from
    the function, or go round the loop again with the event and [err]. *)
Inductive switch_result : Type :=
| SwReturn (e : option Event) (err : option error)
| SwNext (e : Event) (err : option error).

(** The [switch key] of [decodeEvent], entered with the [err] that
    [decodeLine] returned. *)
Definition decodeEvent_switch (e : Event) (key value : string) (err : option error)
  : switch_result :=
  if String.eqb key "END" then
    if negb (String.eqb value "VEVENT")
    then SwReturn None (Some (errors_New "unexpected END value"))
    else SwReturn (Some e) None
  else if String.eqb key "UID" then
    SwNext (mkEvent value (Start e) (End_ e) (Summary e) (Location e) (Description e)) err
  else if String.eqb key "DTSTART" then
    let '(t, err) := decodeTime value in
    SwNext (mkEvent (UID e) t (End_ e) (Summary e) (Location e) (Description e)) err
  else if String.eqb key "DTEND" then
    let '(t, err) := decodeTime value in
    SwNext (mkEvent (UID e) (Start e) t (Summary e) (Location e) (Description e)) err
  else if String.eqb key "SUMMARY" then
    SwNext (mkEvent (UID e) (Start e) (End_ e) value (Location e) (Description e)) err
  else if String.eqb key "LOCATION" then
    SwNext (mkEvent (UID e) (Start e) (End_ e) (Summary e) value (Description e)) err
  else if String.eqb key "DESCRIPTION" then
    SwNext (mkEvent (UID e) (Start e) (End_ e) (Summary e) (Location e) value) err
  else SwNext e err.

(** The results of [decodeEvent] and the reader it leaves behind. *)
Definition event_result : Type := option Event * option error * bufio.Reader.

(** One pass through the loop of [decodeEvent], [again] being the next
    pass: return a pending error, else read a line and dispatch on its key. *)
Definition decodeEvent_body
  (again : Event -> option error -> bufio.Reader -> outcome event_result)
  (e : Event) (err : option error) (r : bufio.Reader) : outcome event_result :=
  match err with
  | Some er => Returns (None, Some er, r)
  | None =>
      do (key, value, err, r) <- decodeLine r;
      match decodeEvent_switch e key value err with
      | SwReturn e' err' => Returns (e', err', r)
      | SwNext e' err' => again e' err' r
      end
  end.

Fixpoint decodeEvent_loop (fuel : nat) (e : Event) (err : option error)
  (r : bufio.Reader) : outcome event_result :=
  match fuel with
  | 0 => OutOfFuel
  | S fuel' => decodeEvent_body (decodeEvent_loop fuel') e err r
  end.

(** [decodeEvent] entered with event [e] under construction. *)
Definition decodeEvent_from (e : Event) (err : option error) (r : bufio.Reader)
  : outcome event_result :=
  decodeEvent_loop (2 + List.length (bufio.input r)) e err r.

Definition decodeEvent (r : bufio.Reader) : outcome event_result :=
  decodeEvent_from new_Event None r.

Module eventList.

(** [l.Less(i, j)] for the events [a = l[i]] and [b = l[j]]. *)
Definition Less (a b : Event) : bool :=
  if time.IsZero (Start a) then true
  else if time.IsZero (Start b) then false
  else time.Before (Start a) (Start b).

(** The methods as the sort package calls them, on indices of the slice
    [l]; [None] is the panic of an index out of range.  [Less] reads
    [l[j]] only when [l[i]] has a start. *)
Definition Less_at (l : list Event) (i j : nat) : option bool :=
  match nth_error l i with
  | None => None
  | Some a =>
      if time.IsZero (Start a) then Some true
      else match nth_error l j with
           | None => None
           | Some b => Some (if time.IsZero (Start b) then false
                             else time.Before (Start a) (Start b))
           end
  end.

(** [l[i] = x] for [i] in range. *)
Fixpoint store (l : list Event) (i : nat) (x : Event) : list Event :=
  match l, i with
  | [], _ => []
  | _ :: l', 0 => x :: l'
  | y :: l', S i' => y :: store l' i' x
  end.

(** [l[i], l[j] = l[j], l[i]]. *)
Definition Swap (l : list Event) (i j : nat) : option (list Event) :=
  match nth_error l j, nth_error l i with
  | Some b, Some a => Some (store (store l i b) j a)
  | _, _ => None
  end.

Definition Len (l : list Event) : nat := List.length l.

End eventList.

Module sort.

(** The inner loop of [insertionSort],
    [for j := i; j > a && data.Less(j, j-1); j-- { data.Swap(j, j-1) }]:
    [x] is the element at [j], [before] the elements to its left from
    [j-1] down to [a]; the result lists positions [j] down to [a]. *)
Fixpoint sink (x : Event) (before : list Event) : list Event :=
  match before with
  | [] => [x]
  | y :: before' =>
      if eventList.Less x y then y :: sink x before' else x :: y :: before'
  end.

(** [insertionSort(data, 0, n)]. *)
Definition insertionSort (data : list Event) : list Event :=
  rev (fold_left (fun before x => sink x before) data []).

(** [sort.Sort(data)].  Go sorts a slice of at most 12 elements by
    [insertionSort] and a longer one by pattern-defeating quicksort (which
    may leave elements that compare equal in another order); the model
    runs the insertion sort at every length. *)
Definition Sort (data : list Event) : list Event := insertionSort data.

(** The same on the slice itself, through the methods of [eventList]:
    the inner loop
    [for j := i; j > 0 && data.Less(j, j-1); j-- { data.Swap(j, j-1) }]
    entered at [j], *)
Fixpoint insert_at (j : nat) (data : list Event) : option (list Event) :=
  match j with
  | 0 => Some data
  | S j' =>
      match eventList.Less_at data j j' with
      | None => None
      | Some false => Some data
      | Some true =>
          match eventList.Swap data j j' with
          | None => None
          | Some data' => insert_at j' data'
          end
      end
  end.

(** and [insertionSort(data, 0, b)], the loop [for i := 1; i < b; i++]. *)
Definition insertionSort_at (data : list Event) (b : nat) : option (list Event) :=
  fold_left (fun d i => match d with None => None | Some l => insert_at i l end)
            (seq 1 (b - 1)) (Some data).

End sort.

(** The results of [Decode]. *)
Definition decode_result : Type := option Calendar * option error.

(** The statements after the loop of [Decode]: sort the events of [c] and
    return it.  Reading [c.Event] through a nil [c] panics. *)
Definition Decode_finish (c : option Calendar) : outcome decode_result :=
  match c with
  | None => Panics "invalid memory address or nil pointer dereference"
  | Some cal => Returns (Some (mkCalendar (sort.Sort (Events cal))), None)
  end.

(** The body of [if value == "VEVENT"] in [Decode]: an early return, or
    the calendar with the event appended and the reader to go on with. *)
Definition Decode_event (c : option Calendar) (r : bufio.Reader)
  : outcome (decode_result + option Calendar * bufio.Reader) :=
  do (e, err, r) <- decodeEvent r;
  match err with
  | Some er => Returns (inl (None, Some er))
  | None =>
      match c, e with
      | Some cal, Some ev => Returns (inr (Some (mkCalendar (Events cal ++ [ev])), r))
      | _, _ => Panics "invalid memory address or nil pointer dereference"
      end
  end.

(** The body of [if key == "BEGIN"] in [Decode]. *)
Definition Decode_begin (c : option Calendar) (value : string) (r : bufio.Reader)
  : outcome (decode_result + option Calendar * bufio.Reader) :=
  match (match c with
         | None =>
             if negb (String.eqb value "VCALENDAR")
             then inl (errors_New "didn't find BEGIN:VCALENDAR")
             else inr (Some new_Calendar)
         | Some _ => inr c
         end) with
  | inl e => Returns (inl (None, Some e))
  | inr c =>
      if String.eqb value "VEVENT" then Decode_event c r
      else Returns (inr (c, r))
  end.

(** One pass through the loop of [Decode], [again] being the next pass. *)
Definition Decode_body
  (again : option Calendar -> bufio.Reader -> outcome decode_result)
  (c : option Calendar) (r : bufio.Reader) : outcome decode_result :=
  do (key, value, err, r) <- decodeLine r;
  match err with
  | Some e => Returns (None, Some e)
  | None =>
      do x <- (if String.eqb key "BEGIN" then Decode_begin c value r
               else Returns (inr (c, r)));
      match x with
      | inl ret => Returns ret
      | inr (c, r) =>
          if (String.eqb key "END" && String.eqb value "VCALENDAR")%bool
          then Decode_finish c
          else again c r
      end
  end.

Fixpoint Decode_loop (fuel : nat) (c : option Calendar) (r : bufio.Reader)
  : outcome decode_result :=
  match fuel with
  | 0 => OutOfFuel
  | S fuel' => Decode_body (Decode_loop fuel') c r
  end.

(** [Decode] entered at the top of its loop with calendar [c]. *)
Definition Decode_from (c : option Calendar) (r : bufio.Reader) : outcome decode_result :=
  Decode_loop (S (List.length (bufio.input r))) c r.

(** [Decode(rd)] for an in-memory [rd]. *)
Definition Decode (rd : bytes) : outcome decode_result :=
  Decode_from None (bufio.NewReader rd).

(** ** The decoder as a machine over logical lines

    [decodeLine] is the only access [Decode] and [decodeEvent] have to the
    input, so a run of [Decode] is determined by the logical lines the
    reader yields.  The states below are the places of the control flow a
    line can be read at, with the data built so far. *)

Definition line : Type := (string * string)%type.

(** [reads r ls r']: calling [decodeLine] again and again from [r] yields
    the logical lines [ls] without error and leaves the reader at [r']. *)
Inductive reads : bufio.Reader -> list line -> bufio.Reader -> Prop :=
| reads_nil : forall r, reads r [] r
| reads_cons : forall r key value r' ls r'',
    decodeLine r = Returns (key, value, None, r') ->
    reads r' ls r'' ->
    reads r ((key, value) :: ls) r''.

Inductive dstate : Type :=
| AtStart                                   (* in [Decode], [c == nil] *)
| InCalendar (c : Calendar)                 (* in [Decode], [c != nil] *)
| InEvent (c : Calendar) (e : Event)        (* in [decodeEvent], called from [Decode] *)
| Finished (res : outcome decode_result).   (* [Decode] has returned or panicked *)

(** The effect of one logical line read in state [st]. *)
Definition dstep (st : dstate) (l : line) : dstate :=
  let '(key, value) := l in
  match st with
  | AtStart =>
      if String.eqb key "BEGIN" then
        if String.eqb value "VCALENDAR" then InCalendar new_Calendar
        else Finished (Returns (None, Some (errors_New "didn't find BEGIN:VCALENDAR")))
      else if (String.eqb key "END" && String.eqb value "VCALENDAR")%bool
      then Finished (Decode_finish None)
      else AtStart
  | InCalendar c =>
      if String.eqb key "BEGIN" then
        if String.eqb value "VEVENT" then InEvent c new_Event else InCalendar c
      else if (String.eqb key "END" && String.eqb value "VCALENDAR")%bool
      then Finished (Decode_finish (Some c))
      else InCalendar c
  | InEvent c e =>
      match decodeEvent_switch e key value None with
      | SwReturn (Some ev) None => InCalendar (mkCalendar (Events c ++ [ev]))
      | SwReturn _ (Some er) => Finished (Returns (None, Some er))
      | SwReturn None None =>
          Finished (Panics "invalid memory address or nil pointer dereference")
      | SwNext e' None => InEvent c e'
      | SwNext _ (Some er) => Finished (Returns (None, Some er))
      end
  | Finished res => Finished res
  end.

Definition state_after (ls : list line) : dstate := fold_left dstep ls AtStart.

(** The rest of the run of [Decode] from state [st] with the reader at [r]. *)
Definition run (st : dstate) (r : bufio.Reader) : outcome decode_result :=
  match st with
  | AtStart => Decode_from None r
  | InCalendar c => Decode_from (Some c) r
  | InEvent c e =>
      do (ev, err, r') <- decodeEvent_from e None r;
      match err with
      | Some er => Returns (None, Some er)
      | None =>
          match ev with
          | Some ev => Decode_from (Some (mkCalendar (Events c ++ [ev]))) r'
          | None => Panics "invalid memory address or nil pointer dereference"
          end
      end
  | Finished res => res
  end.

(** The keys a line is dispatched on where it is read: [BEGIN] and [END]
    in [Decode], the cases of the [switch] in [decodeEvent]. *)
Definition recognized (st : dstate) (key : string) : bool :=
  match st with
  | AtStart | InCalendar _ => String.eqb key "BEGIN" || String.eqb key "END"
  | InEvent _ _ =>
      String.eqb key "END" || String.eqb key "UID" || String.eqb key "DTSTART"
      || String.eqb key "DTEND" || String.eqb key "SUMMARY"
      || String.eqb key "LOCATION" || String.eqb key "DESCRIPTION"
  | Finished _ => false
  end.

(** A line of an event that neither ends it nor carries a timestamp
    [decodeTime] refuses. *)
Definition plain (l : line) : bool :=
  let '(key, value) := l in
  negb (String.eqb key "END")
  && (if String.eqb key "DTSTART" || String.eqb key "DTEND"
      then match decodeTime value with (_, None) => true | (_, Some _) => false end
      else true).

(** The event after the [switch] of [decodeEvent] has run on line [l]. *)
Definition assign (e : Event) (l : line) : Event :=
  let '(key, value) := l in
  match decodeEvent_switch e key value None with
  | SwNext e' _ => e'
  | SwReturn _ _ => e
  end.

(** ** Timestamp layouts *)

(** Digits and then a final [Z]. *)
Fixpoint digits_then_Z (l : bytes) : bool :=
  match l with
  | [] => false
  | [z] => Ascii.eqb z "Z"
  | c :: l' => time.is_digit c && digits_then_Z l'
  end.

(** What may follow the seconds: [Z], or a comma or period, one digit or
    more, and [Z]. *)
Definition fraction_then_Z (l : bytes) : bool :=
  match l with
  | [z] => Ascii.eqb z "Z"
  | sep :: d :: l' => time.commaOrPeriod sep && time.is_digit d && digits_then_Z l'
  | [] => false
  end.

(** [value] has the form YYYYMMDDThhmmss followed by [tail]. *)
Definition layout_then (tail : bytes -> bool) (value : bytes) : bool :=
  match value with
  | y0 :: y1 :: y2 :: y3 :: m0 :: m1 :: d0 :: d1 :: t
    :: h0 :: h1 :: n0 :: n1 :: s0 :: s1 :: rest =>
      forallb time.is_digit [y0; y1; y2; y3; m0; m1; d0; d1; h0; h1; n0; n1; s0; s1]
      && Ascii.eqb t "T" && tail rest
  | _ => false
  end.

(** [value] has the exact layout YYYYMMDDThhmmssZ. *)
Definition layout_exact (value : string) : bool :=
  layout_then (fun rest => match rest with [z] => Ascii.eqb z "Z" | _ => false end)
              (Bytes_of value).

(** [value] has the layout YYYYMMDDThhmmssZ, with or without a
    fractional second before the [Z]. *)
Definition layout_with_fraction (value : string) : bool :=
  layout_then fraction_then_Z (Bytes_of value).

(** ** Written timestamps *)

Section Stamps.

Local Open Scope Z_scope.

(** The fields of a timestamp. *)
Record stamp : Type := mkStamp {
  s_year : Z; s_month : Z; s_day : Z; s_hour : Z; s_min : Z; s_sec : Z
}.

Definition digit_char (d : Z) : ascii := ascii_of_N (Z.to_N (48 + d)).

Definition two_digits (n : Z) : bytes := [digit_char (n / 10); digit_char (n mod 10)].

Definition four_digits (n : Z) : bytes :=
  [digit_char (n / 1000); digit_char (n / 100 mod 10);
   digit_char (n / 10 mod 10); digit_char (n mod 10)].

(** The fields written in the layout YYYYMMDDThhmmssZ. *)
Definition written (t : stamp) : string :=
  String_of (four_digits (s_year t) ++ two_digits (s_month t) ++ two_digits (s_day t)
             ++ "T"%char :: two_digits (s_hour t) ++ two_digits (s_min t)
             ++ two_digits (s_sec t) ++ ["Z"%char]).

(** Each field fits the digits the layout gives it. *)
Definition writable (t : stamp) : Prop :=
  0 <= s_year t <= 9999 /\ 0 <= s_month t <= 99 /\ 0 <= s_day t <= 99 /\
  0 <= s_hour t <= 99 /\ 0 <= s_min t <= 99 /\ 0 <= s_sec t <= 99.

(** The fields name a second of a day of the calendar. *)
Definition valid (t : stamp) : Prop :=
  0 <= s_year t <= 9999 /\ 1 <= s_month t <= 12 /\
  1 <= s_day t <= time.daysIn (s_month t) (s_year t) /\
  0 <= s_hour t < 24 /\ 0 <= s_min t < 60 /\ 0 <= s_sec t < 60.

(** The instant the fields name. *)
Definition instant (t : stamp) : time.Time :=
  time.Date (s_year t) (s_month t) (s_day t) (s_hour t) (s_min t) (s_sec t) 0.

(** [a] comes before [b] in the calendar: the fields compared from the
    year down to the second. *)
Definition stamp_ltb (a b : stamp) : bool :=
  (s_year a <? s_year b) || ((s_year a =? s_year b) &&
  ((s_month a <? s_month b) || ((s_month a =? s_month b) &&
  ((s_day a <? s_day b) || ((s_day a =? s_day b) &&
  ((s_hour a <? s_hour b) || ((s_hour a =? s_hour b) &&
  ((s_min a <? s_min b) || ((s_min a =? s_min b) &&
  (s_sec a <? s_sec b)))))))))).

End Stamps.

(** ** Text *)

(** Each string of [text ls] is a physical line, ended by a newline. *)
Fixpoint text (ls : list string) : bytes :=
  match ls with
  | [] => []
  | l :: ls' => Bytes_of l ++ LF :: text ls'
  end.

(** The line [l] without one final carriage return. *)
Definition trimCR (l : bytes) : bytes :=
  match rev l with
  | c :: r => if Ascii.eqb c CR then rev r else l
  | [] => l
  end.

(** [rest] does not begin with a space: a physical line that starts
    there is not a continuation. *)
Definition not_continued (rest : bytes) : Prop :=
  forall c rest', rest = c :: rest' -> c <> SP.

(** A key and a value that make one physical line [key:value] a reader
    with a buffer of [n] bytes reads back as they are: no newline in
    either, no colon and no leading space in the key, no carriage return
    at the end of the value, and the line shorter than the buffer. *)
Definition unfolded (n : nat) (l : bytes * bytes) : Prop :=
  let '(k, v) := l in
  ~ In LF k /\ ~ In COLON k /\ stripSP k = k /\
  ~ In LF v /\ last v SP <> CR /\
  List.length (k ++ COLON :: v) < n.

(** The physical line [key:value], ended by a newline, and the text of a
    list of such lines. *)
Definition render (l : bytes * bytes) : bytes :=
  let '(k, v) := l in k ++ COLON :: v ++ [LF].

Definition render_all (ls : list (bytes * bytes)) : bytes := List.concat (map render ls).

Definition as_line (l : bytes * bytes) : line :=
  let '(k, v) := l in (String_of k, String_of v).

(** ** Ordering *)


(** ** Notions used in the proofs *)

(** The input a reader has left. *)
Definition remaining (r : bufio.Reader) : nat := List.length (bufio.input r).

(** What [decodeLine] returns: it always returns; the reader keeps its
    buffer size; a line returned without error has consumed input; with an
    error the key and the value are empty. *)
Definition line_result_ok (r : bufio.Reader) (res : line_result) : Prop :=
  let '(key, value, err, r') := res in
  bufio.size r' = bufio.size r /\
  match err with
  | None => remaining r' < remaining r
  | Some _ => key = "" /\ value = ""
  end.

(** Fuel enough for [decodeEvent_loop]: one pass to return a pending
    error, or a pass for each byte left and two more. *)
Definition event_fuel_ok (f : nat) (err : option error) (r : bufio.Reader) : Prop :=
  match err with
  | Some _ => 1 <= f
  | None => 2 + remaining r <= f
  end.

(** What [decodeEvent] returns: it always returns, an event or an error
    and never both; an event returned has consumed input. *)
Definition event_result_ok (r : bufio.Reader) (res : event_result) : Prop :=
  let '(ev, err, r') := res in
  match err with
  | None => (exists e, ev = Some e) /\ remaining r' < remaining r
  | Some _ => ev = None
  end.

(** The outcomes of [Decode]: an error and no calendar, a calendar and no
    error, or a panic. *)
Inductive decode_outcome : outcome decode_result -> Prop :=
| dec_error : forall e, decode_outcome (Returns (None, Some e))
| dec_calendar : forall cal, decode_outcome (Returns (Some cal, None))
| dec_panic : forall msg, decode_outcome (Panics msg).

(** [Decode] has returned or panicked. *)
Definition finished (st : dstate) : Prop :=
  match st with Finished _ => True | _ => False end.

(** The leading digits of [l] dropped. *)
Fixpoint drop_digits (l : bytes) : bytes :=
  match l with
  | c :: l' => if time.is_digit c then drop_digits l' else l
  | [] => []
  end.


(** The range checks of [time.Parse] on the fields of a timestamp whose
    text fits the layout, in the order [Parse] makes them. *)
Definition checked (t : stamp) : time.parsed :=
  if ((s_month t <=? 0) || (12 <? s_month t))%Z then time.rangeErr "month" else
  if ((s_hour t <? 0) || (24 <=? s_hour t))%Z then time.rangeErr "hour" else
  if ((s_min t <? 0) || (60 <=? s_min t))%Z then time.rangeErr "minute" else
  if ((s_sec t <? 0) || (60 <=? s_sec t))%Z then time.rangeErr "second" else
  if ((s_day t <? 1) || (time.daysIn (s_month t) (s_year t) <? s_day t))%Z
  then inr ": day out of range"
  else inl (instant t).

(** The day of the year, from 0. *)
Definition dayOfYear (y m d : Z) : Z :=
  (time.daysBefore (m - 1) + (if time.isLeap y && (3 <=? m) then 1 else 0) + (d - 1))%Z.

(** [reads r ls r'] on closed readers, by running [decodeLine]. *)
Ltac read_lines_go :=
  lazymatch goal with
  | |- reads _ [] _ => apply reads_nil
  | |- reads ?r (_ :: _) _ =>
      let res := eval vm_compute in (decodeLine r) in
      lazymatch res with
      | Returns (?k, ?v, None, ?rr) =>
          apply (reads_cons r k v rr); [vm_compute; reflexivity | read_lines_go]
      end
  end.

Ltac read_lines :=
  repeat match goal with x := _ |- _ => progress unfold x end;
  cbn [app]; read_lines_go.

(** [~ In c l] on a closed list. *)
Ltac not_in_list :=
  let H := fresh in
  cbv; intro H;
  repeat (destruct H as [H|H]; [discriminate H|]); exact H.

(** The sorting example of the specification: starts in June, none and
    May come out as none, May, June. *)
Definition cal3 : bytes := text
  ["BEGIN:VCALENDAR"; "VERSION:2.0";
   "BEGIN:VEVENT"; "UID:a"; "DTSTART:20110601T100000Z"; "END:VEVENT";
   "BEGIN:VEVENT"; "UID:b"; "SUMMARY:no start"; "END:VEVENT";
   "BEGIN:VEVENT"; "UID:c"; "DTSTART:20110501T100000Z"; "END:VEVENT";
   "END:VCALENDAR"].

Definition cal3_sorted : Calendar := mkCalendar
  [mkEvent "b" time.zero time.zero "no start" "" "";
   mkEvent "c" (time.Date 2011 5 1 10 0 0 0) time.zero "" "" "";
   mkEvent "a" (time.Date 2011 6 1 10 0 0 0) time.zero "" "" ""].

(** The lines [Decode] skips before the first [BEGIN]: none of them is a
    [BEGIN] line, nor [END:VCALENDAR]. *)
Definition before_BEGIN (ls : list line) : Prop :=
  forall k v, In (k, v) ls -> k <> "BEGIN" /\ ~ (k = "END" /\ v = "VCALENDAR").

(** A continuation line: a space, the bytes [c] and a newline. *)
Definition continuation (c : bytes) : bytes := SP :: c ++ [LF].

(** The physical line [key:value] ended by a carriage return and a
    newline, and the text of a list of such lines. *)
Definition render_crlf (l : bytes * bytes) : bytes :=
  let '(k, v) := l in k ++ COLON :: v ++ [CR; LF].

Definition render_all_crlf (ls : list (bytes * bytes)) : bytes :=
  List.concat (map render_crlf ls).

(** ** Well-formed calendars *)



(** The event [decodeEvent] builds from the property lines [props]. *)
Definition event_of (props : list line) : Event := fold_left assign props new_Event.

(* ================================================================= *)
(** * Properties *)

(** ** The buffered reader *)

Lemma ReadSlice_split n s line rest err :
  bufio.ReadSlice n s = (line, rest, err) -> s = line ++ rest.
Proof.
  revert s line rest err.
  induction n as [|n IH]; intros s line rest err H; simpl in H.
  - inversion H; reflexivity.
  - destruct s as [|c s'].
    + inversion H; reflexivity.
    + destruct (Ascii.eqb c LF).
      * inversion H; reflexivity.
      * destruct (bufio.ReadSlice n s') as [[l0 r0] e0] eqn:E.
        inversion H; subst. simpl. f_equal. eapply IH; eauto.
Qed.

Lemma ReadSlice_found n s line rest :
  bufio.ReadSlice n s = (line, rest, None) -> line <> [].
Proof.
  destruct n; simpl; [discriminate|].
  destruct s as [|c s']; [discriminate|].
  destruct (Ascii.eqb c LF).
  - intro H; inversion H; discriminate.
  - destruct (bufio.ReadSlice n s') as [[l0 r0] e0].
    intro H; inversion H; discriminate.
Qed.

Lemma ReadSlice_line n l rest :
  ~ In LF l -> List.length l < n ->
  bufio.ReadSlice n (l ++ LF :: rest) = (l ++ [LF], rest, None).
Proof.
  revert n. induction l as [|c l IH]; intros n Hnl Hlen; simpl in *.
  - destruct n; [lia|]. simpl. reflexivity.
  - destruct n; [lia|]. simpl.
    destruct (Ascii.eqb_spec c LF) as [->|Hc].
    + exfalso. apply Hnl. now left.
    + rewrite IH; [reflexivity| |lia]. intro; apply Hnl; now right.
Qed.

Lemma ReadSlice_eof n l :
  ~ In LF l -> List.length l < n ->
  bufio.ReadSlice n l = (l, [], Some io_EOF).
Proof.
  revert n. induction l as [|c l IH]; intros n Hnl Hlen; simpl in *.
  - destruct n; [lia|]. reflexivity.
  - destruct n; [lia|]. simpl.
    destruct (Ascii.eqb_spec c LF) as [->|Hc].
    + exfalso. apply Hnl. now left.
    + rewrite IH; [reflexivity| |lia]. intro; apply Hnl; now right.
Qed.

Lemma ReadSlice_full n l rest :
  ~ In LF l -> List.length l = n ->
  bufio.ReadSlice n (l ++ rest) = (l, rest, Some bufio_ErrBufferFull).
Proof.
  revert n. induction l as [|c l IH]; intros n Hnl Hlen; simpl in *.
  - subst. reflexivity.
  - destruct n; [lia|]. simpl.
    destruct (Ascii.eqb_spec c LF) as [->|Hc].
    + exfalso. apply Hnl. now left.
    + rewrite IH; [reflexivity| |lia]. intro; apply Hnl; now right.
Qed.

Lemma dropLineEnd_LF l : bufio.dropLineEnd (l ++ [LF]) = trimCR l.
Proof.
  unfold bufio.dropLineEnd, trimCR. rewrite rev_app_distr. simpl.
  destruct (rev l) as [|c r] eqn:E.
  - simpl. apply (f_equal (@rev ascii)) in E. rewrite rev_involutive in E.
    subst. reflexivity.
  - destruct (Ascii.eqb c CR); [reflexivity|].
    rewrite <- E. apply rev_involutive.
Qed.

Lemma dropLineEnd_noLF l : ~ In LF l -> bufio.dropLineEnd l = l.
Proof.
  intro H. unfold bufio.dropLineEnd.
  destruct (rev l) as [|c r] eqn:E; [reflexivity|].
  destruct (Ascii.eqb_spec c LF) as [->|]; [|reflexivity].
  exfalso. apply H. apply in_rev. rewrite E. now left.
Qed.

Lemma trimCR_noCR l : last l SP <> CR -> trimCR l = l.
Proof.
  intro H. unfold trimCR.
  destruct (rev l) as [|c r] eqn:E; [reflexivity|].
  destruct (Ascii.eqb_spec c CR) as [->|]; [|reflexivity].
  exfalso. apply H.
  apply (f_equal (@rev ascii)) in E. rewrite rev_involutive in E. subst l.
  simpl. apply last_last.
Qed.

(** A physical line ended by a newline and shorter than the buffer is
    read whole, without its line end. *)
Lemma ReadLine_line n l rest :
  ~ In LF l -> List.length l < n ->
  bufio.ReadLine (bufio.mkReader n (l ++ LF :: rest))
  = (trimCR l, false, None, bufio.mkReader n rest).
Proof.
  intros Hnl Hlen. unfold bufio.ReadLine. simpl.
  rewrite ReadSlice_line by assumption.
  destruct (l ++ [LF]) eqn:E.
  - destruct l; discriminate.
  - rewrite <- E. rewrite dropLineEnd_LF. reflexivity.
Qed.

(** The last line of an input that does not end in a newline. *)
Lemma ReadLine_last n l :
  l <> [] -> ~ In LF l -> List.length l < n ->
  bufio.ReadLine (bufio.mkReader n l) = (l, false, None, bufio.mkReader n []).
Proof.
  intros Hne Hnl Hlen. unfold bufio.ReadLine. simpl.
  rewrite ReadSlice_eof by assumption.
  destruct l; [congruence|].
  rewrite dropLineEnd_noLF by assumption. reflexivity.
Qed.

(** A line that fills the buffer before its newline comes back as a
    prefix. *)
Lemma ReadLine_long n l rest :
  ~ In LF l -> List.length l = n ->
  exists b r', bufio.ReadLine (bufio.mkReader n (l ++ rest)) = (b, true, None, r').
Proof.
  intros Hnl Hlen. unfold bufio.ReadLine. simpl.
  rewrite ReadSlice_full by assumption.
  destruct (rev l) as [|c l'].
  - eexists _, _; reflexivity.
  - destruct (Ascii.eqb c CR); eexists _, _; reflexivity.
Qed.

Lemma ReadLine_size r b p e r' :
  bufio.ReadLine r = (b, p, e, r') -> bufio.size r' = bufio.size r.
Proof.
  unfold bufio.ReadLine.
  destruct (bufio.ReadSlice (bufio.size r) (bufio.input r)) as [[line rest] err].
  destruct err as [[]|].
  3:{ destruct (rev line) as [|c l']; [|destruct (Ascii.eqb c CR)];
      intro H; inversion H; reflexivity. }
  all: destruct line; intro H; inversion H; reflexivity.
Qed.

(** A line read without error and not as a prefix consumes input. *)
Lemma ReadLine_shrinks r b r' :
  bufio.ReadLine r = (b, false, None, r') ->
  List.length (bufio.input r') < List.length (bufio.input r).
Proof.
  unfold bufio.ReadLine.
  destruct (bufio.ReadSlice (bufio.size r) (bufio.input r)) as [[line rest] err] eqn:E.
  pose proof (ReadSlice_split _ _ _ _ _ E) as Hs.
  assert (Hcons : forall c l, line = c :: l ->
            List.length rest < List.length (bufio.input r)).
  { intros c l ->. rewrite Hs. simpl. rewrite length_app. lia. }
  destruct err as [e|].
  - destruct e.
    3:{ destruct (rev line) as [|c l']; [|destruct (Ascii.eqb c CR)];
        intro H; inversion H. }
    all: destruct line; intro H; inversion H; subst; simpl; eapply Hcons; eauto.
  - apply ReadSlice_found in E.
    destruct line; [congruence|].
    intro H; inversion H; subst; simpl; eapply Hcons; eauto.
Qed.

(** ** Termination

    Every pass of a loop that goes round again has consumed input, so the
    fuel the definitions start from is enough: the loops satisfy their
    unfolding equations, and never come out as [OutOfFuel]. *)

Lemma reader_lt_ind (P : bufio.Reader -> Prop) :
  (forall r, (forall r', remaining r' < remaining r -> P r') -> P r) ->
  forall r, P r.
Proof.
  intros H r. remember (remaining r) as n eqn:En.
  revert r En. induction n as [n IH] using lt_wf_ind.
  intros r ->. apply H. intros r' Hlt. eapply IH; eauto.
Qed.

Lemma decodeLine_body_ext again1 again2 buf r :
  (forall buf' r', remaining r' < remaining r -> again1 buf' r' = again2 buf' r') ->
  decodeLine_body again1 buf r = decodeLine_body again2 buf r.
Proof.
  intro H. unfold decodeLine_body.
  destruct (bufio.ReadLine r) as [[[b p] e] r1] eqn:E.
  destruct e; [reflexivity|]. destruct p; [reflexivity|].
  destruct (Nat.eqb (List.length b) 0); [reflexivity|].
  destruct (bufio.Peek1 r1) as [pb pe].
  destruct pe, pb; try reflexivity.
  destruct (Ascii.eqb a SP); [|reflexivity].
  apply H. eapply ReadLine_shrinks; eauto.
Qed.

Lemma decodeLine_loop_fuel f1 : forall f2 buf r,
  remaining r < f1 -> remaining r < f2 ->
  decodeLine_loop f1 buf r = decodeLine_loop f2 buf r.
Proof.
  induction f1 as [|f1 IH]; intros f2 buf r H1 H2; [lia|].
  destruct f2 as [|f2]; [lia|]. simpl.
  apply decodeLine_body_ext. intros buf' r' Hlt. apply IH; lia.
Qed.

(** The unfolding equation of [decodeLine]. *)
Lemma decodeLine_from_eq buf r :
  decodeLine_from buf r = decodeLine_body decodeLine_from buf r.
Proof.
  unfold decodeLine_from at 1. simpl.
  apply decodeLine_body_ext. intros buf' r' Hlt.
  unfold decodeLine_from. apply decodeLine_loop_fuel; unfold remaining in *; lia.
Qed.

Lemma decodeLine_split_ok r0 buf r :
  bufio.size r = bufio.size r0 -> remaining r < remaining r0 ->
  line_result_ok r0 (decodeLine_split buf r).
Proof.
  intros Hs Hr. unfold decodeLine_split, strings.SplitN_colon_2.
  destruct (strings.cut_colon (String_of buf)) as [[k v]|]; simpl; auto.
Qed.

Lemma decodeLine_from_returns r : forall buf,
  exists res, decodeLine_from buf r = Returns res /\ line_result_ok r res.
Proof.
  induction r as [r IH] using reader_lt_ind. intro buf.
  rewrite decodeLine_from_eq. unfold decodeLine_body.
  destruct (bufio.ReadLine r) as [[[b p] e] r1] eqn:E.
  pose proof (ReadLine_size _ _ _ _ _ E) as Hsize.
  destruct e as [e|].
  { eexists; split; [reflexivity|]. simpl; auto. }
  destruct p.
  { eexists; split; [reflexivity|]. simpl; auto. }
  pose proof (ReadLine_shrinks _ _ _ E) as Hlt. fold (remaining r1) (remaining r) in Hlt.
  destruct (Nat.eqb (List.length b) 0).
  { eexists; split; [reflexivity|]. simpl; auto. }
  destruct (bufio.Peek1 r1) as [pb pe].
  assert (Hsplit : forall buf', exists res,
             Returns (decodeLine_split buf' r1) = Returns res /\ line_result_ok r res).
  { intro buf'. eexists; split; [reflexivity|]. now apply decodeLine_split_ok. }
  destruct pe, pb; try apply Hsplit.
  destruct (Ascii.eqb a SP); [|apply Hsplit].
  destruct (IH r1 Hlt (buf ++ stripSP b)) as [[[[k v] err] r2] [Hres Hok]].
  exists (k, v, err, r2). split; [exact Hres|].
  simpl in *. destruct Hok as [Hs2 Hk]. split; [congruence|].
  destruct err; [exact Hk|lia].
Qed.

Lemma decodeLine_returns r :
  exists res, decodeLine r = Returns res /\ line_result_ok r res.
Proof. apply decodeLine_from_returns. Qed.

Lemma decodeLine_shrinks r key value r' :
  decodeLine r = Returns (key, value, None, r') -> remaining r' < remaining r.
Proof.
  intro H. destruct (decodeLine_returns r) as [res [Hres Hok]].
  rewrite H in Hres. inversion Hres; subst. simpl in Hok. tauto.
Qed.

Lemma decodeLine_error_key r key value e r' :
  decodeLine r = Returns (key, value, Some e, r') -> key = "" /\ value = "".
Proof.
  intro H. destruct (decodeLine_returns r) as [res [Hres Hok]].
  rewrite H in Hres. inversion Hres; subst. simpl in Hok. tauto.
Qed.

(** The switch of [decodeEvent] on the empty key goes round again, the
    event and the error unchanged. *)
Lemma decodeEvent_switch_empty e err :
  decodeEvent_switch e "" "" err = SwNext e err.
Proof. reflexivity. Qed.

Lemma decodeEvent_body_ext again1 again2 e err r :
  (forall e' err' r', (err' = None -> remaining r' < remaining r) ->
                      again1 e' err' r' = again2 e' err' r') ->
  decodeEvent_body again1 e err r = decodeEvent_body again2 e err r.
Proof.
  intro H. unfold decodeEvent_body.
  destruct err; [reflexivity|].
  destruct (decodeLine_returns r) as [[[[k v] err] r1] [Hres Hok]].
  rewrite Hres. simpl.
  destruct (decodeEvent_switch e k v err) as [e' err'|e' err'] eqn:Hsw; [reflexivity|].
  apply H. intros ->. simpl in Hok. destruct err as [er|]; [|tauto].
  exfalso. destruct Hok as [_ [-> ->]]. rewrite decodeEvent_switch_empty in Hsw.
  inversion Hsw.
Qed.

Lemma decodeEvent_loop_fuel f1 : forall f2 e err r,
  event_fuel_ok f1 err r -> event_fuel_ok f2 err r ->
  decodeEvent_loop f1 e err r = decodeEvent_loop f2 e err r.
Proof.
  induction f1 as [|f1 IH]; intros f2 e err r H1 H2.
  { destruct err; simpl in H1; lia. }
  destruct f2 as [|f2]; [destruct err; simpl in H2; lia|].
  simpl. destruct err as [er|]; [reflexivity|].
  apply decodeEvent_body_ext. intros e' err' r' Hlt.
  apply IH; destruct err'; simpl in *; try lia;
    specialize (Hlt eq_refl); lia.
Qed.

Lemma decodeEvent_loop_S f e err r :
  decodeEvent_loop (S f) e err r = decodeEvent_body (decodeEvent_loop f) e err r.
Proof. reflexivity. Qed.

(** The unfolding equation of [decodeEvent]. *)
Lemma decodeEvent_from_eq e err r :
  decodeEvent_from e err r = decodeEvent_body decodeEvent_from e err r.
Proof.
  unfold decodeEvent_from at 1.
  change (2 + List.length (bufio.input r)) with (S (S (List.length (bufio.input r)))).
  rewrite decodeEvent_loop_S.
  destruct err as [er|]; [reflexivity|].
  apply decodeEvent_body_ext. intros e' err' r' Hlt.
  unfold decodeEvent_from.
  apply decodeEvent_loop_fuel; destruct err'; simpl; unfold remaining in *; try lia;
    specialize (Hlt eq_refl); lia.
Qed.

Lemma decodeEvent_switch_return e key value err ev err' :
  decodeEvent_switch e key value err = SwReturn ev err' ->
  key = "END" /\
  ((ev = Some e /\ err' = None /\ value = "VEVENT") \/
   (ev = None /\ err' = Some (errors_New "unexpected END value") /\ value <> "VEVENT")).
Proof.
  unfold decodeEvent_switch.
  destruct (String.eqb_spec key "END") as [->|Hk].
  - destruct (String.eqb_spec value "VEVENT") as [->|Hv]; simpl;
      intro H; inversion H; subst; split; auto.
  - repeat match goal with
           | |- context [String.eqb ?a ?b] => destruct (String.eqb a b)
           | |- context [decodeTime ?v] => destruct (decodeTime v)
           end; intro H; inversion H.
Qed.

Lemma decodeEvent_from_returns r : forall e err,
  exists res, decodeEvent_from e err r = Returns res /\
              (err = None -> event_result_ok r res).
Proof.
  induction r as [r IH] using reader_lt_ind. intros e err.
  rewrite decodeEvent_from_eq. unfold decodeEvent_body.
  destruct err as [er|].
  { eexists; split; [reflexivity|]. discriminate. }
  destruct (decodeLine_returns r) as [[[[k v] err] r1] [Hres Hok]].
  rewrite Hres. simpl. simpl in Hok. destruct Hok as [_ Hok].
  destruct (decodeEvent_switch e k v err) as [ev err'|e' err'] eqn:Hsw.
  - eexists; split; [reflexivity|]. intros _. simpl.
    apply decodeEvent_switch_return in Hsw.
    destruct Hsw as [-> [(-> & -> & ->)|(-> & -> & Hv)]]; [|reflexivity].
    destruct err as [er|]; [destruct Hok; discriminate|].
    split; [eauto|exact Hok].
  - destruct err as [er|].
    + destruct Hok as [-> ->]. rewrite decodeEvent_switch_empty in Hsw.
      inversion Hsw; subst.
      rewrite decodeEvent_from_eq. simpl.
      eexists; split; [reflexivity|]. intros _. reflexivity.
    + destruct err' as [er'|].
      * rewrite decodeEvent_from_eq. simpl.
        eexists; split; [reflexivity|]. intros _. reflexivity.
      * destruct (IH r1 Hok e' None) as [[[ev err2] r2] [Hres2 Hok2]].
        exists (ev, err2, r2). split; [exact Hres2|]. intros _.
        specialize (Hok2 eq_refl). simpl in *.
        destruct err2; [exact Hok2|]. destruct Hok2; split; [assumption|lia].
Qed.

Lemma decodeEvent_returns r :
  exists res, decodeEvent r = Returns res /\ event_result_ok r res.
Proof.
  destruct (decodeEvent_from_returns r new_Event None) as [res [H1 H2]].
  exists res; auto.
Qed.

(** The [BEGIN] branch of [Decode] returns an error with no calendar, or
    goes on with a calendar and less or as much input; it does not panic. *)
Lemma Decode_begin_returns c value r :
  exists x, Decode_begin c value r = Returns x /\
    match x with
    | inl (cal, err) => cal = None /\ exists e, err = Some e
    | inr (c', r') => (exists cal, c' = Some cal) /\ remaining r' <= remaining r
    end.
Proof.
  unfold Decode_begin.
  assert (Hgo : forall cal, exists x,
    (if String.eqb value "VEVENT" then Decode_event (Some cal) r
     else Returns (inr (Some cal, r))) = Returns x /\
    match x with
    | inl (cal', err) => cal' = None /\ exists e, err = Some e
    | inr (c', r') => (exists cal', c' = Some cal') /\ remaining r' <= remaining r
    end).
  { intro cal. destruct (String.eqb value "VEVENT").
    - unfold Decode_event.
      destruct (decodeEvent_returns r) as [[[ev err] r1] [Hres Hok]].
      rewrite Hres. simpl. simpl in Hok. destruct err as [er|].
      + eexists; split; [reflexivity|]. simpl; eauto.
      + destruct Hok as [[e ->] Hlt].
        eexists; split; [reflexivity|]. simpl. split; [eauto|lia].
    - eexists; split; [reflexivity|]. simpl; eauto. }
  destruct c as [cal|]; [apply Hgo|].
  destruct (String.eqb value "VCALENDAR"); simpl; [apply Hgo|].
  eexists; split; [reflexivity|]. simpl; eauto.
Qed.

Lemma Decode_body_ext again1 again2 c r :
  (forall c' r', remaining r' < remaining r -> again1 c' r' = again2 c' r') ->
  Decode_body again1 c r = Decode_body again2 c r.
Proof.
  intro H. unfold Decode_body.
  destruct (decodeLine_returns r) as [[[[k v] err] r1] [Hres Hok]].
  rewrite Hres. simpl. simpl in Hok. destruct Hok as [_ Hok].
  destruct err as [er|]; [reflexivity|].
  destruct (String.eqb k "BEGIN").
  - destruct (Decode_begin_returns c v r1) as [x [Hx Hxok]]. rewrite Hx. simpl.
    destruct x as [ret|[c' r']]; [reflexivity|].
    destruct (String.eqb k "END" && String.eqb v "VCALENDAR")%bool; [reflexivity|].
    apply H. destruct Hxok. lia.
  - simpl.
    destruct (String.eqb k "END" && String.eqb v "VCALENDAR")%bool; [reflexivity|].
    apply H. assumption.
Qed.

Lemma Decode_loop_fuel f1 : forall f2 c r,
  remaining r < f1 -> remaining r < f2 ->
  Decode_loop f1 c r = Decode_loop f2 c r.
Proof.
  induction f1 as [|f1 IH]; intros f2 c r H1 H2; [lia|].
  destruct f2 as [|f2]; [lia|]. simpl.
  apply Decode_body_ext. intros c' r' Hlt. apply IH; lia.
Qed.

(** The unfolding equation of [Decode]. *)
Lemma Decode_from_eq c r :
  Decode_from c r = Decode_body Decode_from c r.
Proof.
  unfold Decode_from at 1. simpl.
  apply Decode_body_ext. intros c' r' Hlt.
  unfold Decode_from. apply Decode_loop_fuel; unfold remaining in *; lia.
Qed.

Lemma Decode_finish_outcome c : decode_outcome (Decode_finish c).
Proof. destruct c; constructor. Qed.

Lemma Decode_from_outcome r : forall c, decode_outcome (Decode_from c r).
Proof.
  induction r as [r IH] using reader_lt_ind. intro c.
  rewrite Decode_from_eq. unfold Decode_body.
  destruct (decodeLine_returns r) as [[[[k v] err] r1] [Hres Hok]].
  rewrite Hres. simpl. simpl in Hok. destruct Hok as [_ Hok].
  destruct err as [er|]; [constructor|].
  destruct (String.eqb k "BEGIN").
  - destruct (Decode_begin_returns c v r1) as [x [Hx Hxok]]. rewrite Hx. simpl.
    destruct x as [[cal err]|[c' r']].
    + destruct Hxok as [-> [e ->]]. constructor.
    + destruct (String.eqb k "END" && String.eqb v "VCALENDAR")%bool.
      * apply Decode_finish_outcome.
      * apply IH. destruct Hxok. lia.
  - simpl. destruct (String.eqb k "END" && String.eqb v "VCALENDAR")%bool.
    + apply Decode_finish_outcome.
    + apply IH. assumption.
Qed.

(** [Decode] terminates on every input, and never returns a calendar
    together with an error, nor neither. *)
Lemma Decode_outcome rd : decode_outcome (Decode rd).
Proof. apply Decode_from_outcome. Qed.

(** ** The decoder follows the logical lines *)

(** Reading one line takes the run from [st] to [dstep st]. *)
Lemma run_step st r key value r' :
  decodeLine r = Returns (key, value, None, r') ->
  run st r = run (dstep st (key, value)) r'.
Proof.
  intro Hl. destruct st as [|c|c e|res]; simpl.
  - rewrite Decode_from_eq. unfold Decode_body. rewrite Hl. simpl.
    destruct (String.eqb key "BEGIN") eqn:Hb.
    + unfold Decode_begin.
      destruct (String.eqb_spec value "VCALENDAR") as [->|Hv]; simpl; [|reflexivity].
      apply String.eqb_eq in Hb. subst key. reflexivity.
    + simpl. destruct (String.eqb key "END" && String.eqb value "VCALENDAR")%bool;
        reflexivity.
  - rewrite Decode_from_eq. unfold Decode_body. rewrite Hl. simpl.
    destruct (String.eqb key "BEGIN") eqn:Hb.
    + unfold Decode_begin.
      apply String.eqb_eq in Hb. subst key. simpl.
      destruct (String.eqb value "VEVENT"); simpl; [|reflexivity].
      unfold Decode_event, decodeEvent.
      destruct (decodeEvent_from new_Event None r') as [[[ev err] r2]| |]; simpl;
        try reflexivity.
      destruct err; simpl; [reflexivity|].
      destruct ev; reflexivity.
    + simpl. destruct (String.eqb key "END" && String.eqb value "VCALENDAR")%bool;
        reflexivity.
  - rewrite decodeEvent_from_eq. unfold decodeEvent_body. rewrite Hl. simpl.
    destruct (decodeEvent_switch e key value None) as [ev err|e' err].
    + simpl. destruct err; [destruct ev; reflexivity|]. destruct ev; reflexivity.
    + destruct err as [er|]; [|reflexivity].
      rewrite (decodeEvent_from_eq e' (Some er) r'). reflexivity.
  - reflexivity.
Qed.

(** A line that cannot be read ends the run with the reader's error. *)
Lemma run_error st r key value e r' :
  decodeLine r = Returns (key, value, Some e, r') ->
  ~ finished st ->
  run st r = Returns (None, Some e).
Proof.
  intros Hl Hst. destruct (decodeLine_error_key _ _ _ _ _ Hl) as [-> ->].
  destruct st as [|c|c ev|res]; simpl.
  - rewrite Decode_from_eq. unfold Decode_body. rewrite Hl. reflexivity.
  - rewrite Decode_from_eq. unfold Decode_body. rewrite Hl. reflexivity.
  - rewrite decodeEvent_from_eq. unfold decodeEvent_body. rewrite Hl. reflexivity.
  - exfalso. apply Hst. exact I.
Qed.

Lemma run_reads r ls r' :
  reads r ls r' -> forall st, run st r = run (fold_left dstep ls st) r'.
Proof.
  induction 1 as [r|r key value r1 ls r2 Hl Hreads IH]; intro st; simpl.
  - reflexivity.
  - rewrite (run_step st _ _ _ _ Hl). apply IH.
Qed.

(** [Decode] is the run from the start state: after the logical lines
    [ls] it goes on from [state_after ls]. *)
Lemma Decode_reads rd ls r' :
  reads (bufio.NewReader rd) ls r' ->
  Decode rd = run (state_after ls) r'.
Proof. intro H. apply (run_reads _ _ _ H AtStart). Qed.

(** ** The line reader *)

Lemma String_of_cons c l : String_of (c :: l) = String c (String_of l).
Proof. reflexivity. Qed.

Lemma cut_colon_String c s :
  strings.cut_colon (String c s) =
  if Ascii.eqb c COLON then Some (EmptyString, s)
  else match strings.cut_colon s with
       | Some (k, v) => Some (String c k, v)
       | None => None
       end.
Proof. reflexivity. Qed.

Lemma cut_colon_found k v :
  ~ In COLON k ->
  strings.cut_colon (String_of (k ++ COLON :: v)) = Some (String_of k, String_of v).
Proof.
  induction k as [|c k IH]; intro H.
  - change ([] ++ COLON :: v) with (COLON :: v).
    rewrite String_of_cons, cut_colon_String. reflexivity.
  - change ((c :: k) ++ COLON :: v) with (c :: (k ++ COLON :: v)).
    rewrite String_of_cons, cut_colon_String.
    destruct (Ascii.eqb_spec c COLON) as [->|Hc].
    + exfalso. apply H. now left.
    + rewrite IH; [reflexivity|]. intro; apply H; now right.
Qed.

Lemma cut_colon_none L :
  ~ In COLON L -> strings.cut_colon (String_of L) = None.
Proof.
  induction L as [|c L IH]; intro H.
  - reflexivity.
  - rewrite String_of_cons, cut_colon_String.
    destruct (Ascii.eqb_spec c COLON) as [->|Hc].
    + exfalso. apply H. now left.
    + rewrite IH; [reflexivity|]. intro; apply H; now right.
Qed.

Lemma decodeLine_split_found k v r :
  ~ In COLON k ->
  decodeLine_split (k ++ COLON :: v) r = (String_of k, String_of v, None, r).
Proof.
  intro H. unfold decodeLine_split, strings.SplitN_colon_2.
  now rewrite cut_colon_found.
Qed.

Lemma decodeLine_split_none L r :
  ~ In COLON L ->
  decodeLine_split L r
  = ("", "", Some (errors_New "bad line, couldn't find key:value"), r).
Proof.
  intro H. unfold decodeLine_split, strings.SplitN_colon_2.
  now rewrite cut_colon_none.
Qed.

Lemma decodeLine_next_eq buf r :
  decodeLine_next buf r =
  let '(b, err) := bufio.Peek1 r in
  match err, b with
  | None, c :: _ =>
      if Ascii.eqb c SP then decodeLine_from buf r
      else Returns (decodeLine_split buf r)
  | _, _ => Returns (decodeLine_split buf r)
  end.
Proof.
  unfold decodeLine_next, bufio.Peek1. destruct (bufio.input r); reflexivity.
Qed.

(** One pass of the loop over a physical line read without error. *)
Lemma decodeLine_from_pass buf r b r' :
  bufio.ReadLine r = (b, false, None, r') -> b <> [] ->
  decodeLine_from buf r = decodeLine_next (buf ++ stripSP b) r'.
Proof.
  intros H Hb. rewrite decodeLine_from_eq, decodeLine_next_eq.
  unfold decodeLine_body. rewrite H.
  destruct b; [congruence|]. reflexivity.
Qed.

(** The loop of [decodeLine] ends with the finished logical line split. *)
Lemma decodeLine_from_logical buf r L r' :
  logical_line buf r L r' ->
  decodeLine_from buf r = Returns (decodeLine_split L r').
Proof.
  induction 1 as [buf r b r' H Hb Hn|buf r b r' rest L r'' H Hb Hs Hl IH].
  - rewrite (decodeLine_from_pass _ _ _ _ H Hb). unfold decodeLine_next.
    destruct (bufio.input r') as [|c rest] eqn:E; [reflexivity|].
    destruct (Ascii.eqb_spec c SP) as [->|]; [|reflexivity].
    exfalso. eapply Hn; eauto.
  - rewrite (decodeLine_from_pass _ _ _ _ H Hb). unfold decodeLine_next.
    rewrite Hs. simpl. exact IH.
Qed.

(** C7.  A finished logical line with a colon is returned as the text
    before its first colon and the whole remainder after it, further
    colons included; a finished logical line without a colon is refused
    with "bad line, couldn't find key:value", a line-format error. *)
Theorem decodeLine_splits_at_first_colon r L r' :
  logical_line [] r L r' ->
  (forall k v, L = k ++ COLON :: v -> ~ In COLON k ->
     decodeLine r = Returns (String_of k, String_of v, None, r')) /\
  (~ In COLON L ->
     exists e, decodeLine r = Returns ("", "", Some e, r') /\
               e = errors_New "bad line, couldn't find key:value" /\
               kind_of e = Some LineFormatError).
Proof.
  intro H. apply decodeLine_from_logical in H. fold (decodeLine r) in H.
  split.
  - intros k v -> Hk. rewrite H. now rewrite decodeLine_split_found.
  - intro Hn. eexists. rewrite H. rewrite decodeLine_split_none by assumption.
    split; [reflexivity|]. split; reflexivity.
Qed.

Lemma trimCR_app a b : b <> [] -> trimCR (a ++ b) = a ++ trimCR b.
Proof.
  intro Hb. unfold trimCR. rewrite rev_app_distr.
  destruct (rev b) as [|c rb] eqn:E.
  - apply (f_equal (@rev ascii)) in E. rewrite rev_involutive in E.
    simpl in E. congruence.
  - simpl. destruct (Ascii.eqb c CR).
    + rewrite rev_app_distr, rev_involutive. reflexivity.
    + reflexivity.
Qed.

Lemma trimCR_cons c l : l <> [] -> trimCR (c :: l) = c :: trimCR l.
Proof. intro H. apply (trimCR_app [c] l H). Qed.

(** A physical line, ended by a newline and shorter than the buffer, goes
    through one pass of the loop unless it is blank. *)
Lemma decodeLine_from_line n buf l rest :
  ~ In LF l -> List.length l < n -> trimCR l <> [] ->
  decodeLine_from buf (bufio.mkReader n (l ++ LF :: rest))
  = decodeLine_next (buf ++ stripSP (trimCR l)) (bufio.mkReader n rest).
Proof.
  intros Hnl Hlen Hb.
  apply decodeLine_from_pass; [|assumption].
  now apply ReadLine_line.
Qed.

(** A physical line that fills the buffer before its newline is refused. *)
Lemma decodeLine_from_long_line n buf l rest :
  ~ In LF l -> List.length l = n ->
  exists r', decodeLine_from buf (bufio.mkReader n (l ++ rest))
             = Returns ("", "", Some (errors_New "unexpected long line"), r').
Proof.
  intros Hnl Hlen.
  destruct (ReadLine_long n l rest Hnl Hlen) as (b & r' & H).
  exists r'. rewrite decodeLine_from_eq. unfold decodeLine_body. rewrite H.
  reflexivity.
Qed.

Lemma decodeLine_from_space_line n buf l rest :
  ~ In LF l -> S (List.length l) < n ->
  decodeLine_from buf (bufio.mkReader n (SP :: l ++ LF :: rest))
  = decodeLine_next (buf ++ trimCR l) (bufio.mkReader n rest).
Proof.
  intros Hnl Hlen.
  assert (Ht : trimCR (SP :: l) = SP :: trimCR l).
  { destruct l as [|c l]; [reflexivity|]. apply trimCR_cons. discriminate. }
  change (SP :: l ++ LF :: rest) with ((SP :: l) ++ LF :: rest).
  rewrite decodeLine_from_line.
  - rewrite Ht. reflexivity.
  - intros [H|H]; [discriminate|auto].
  - simpl. lia.
  - rewrite Ht. discriminate.
Qed.

(** C10.  A physical line that begins with a space loses that space
    whether or not it continues a logical line: with [buf] in the buffer
    (nothing, for the first physical line of a logical line) the bytes
    after the space are appended and the loop goes on as after any other
    physical line. *)
Theorem decodeLine_strips_leading_space n buf l rest :
  ~ In LF l -> S (List.length l) < n ->
  decodeLine_from buf (bufio.mkReader n (SP :: l ++ LF :: rest))
  = decodeLine_next (buf ++ trimCR l) (bufio.mkReader n rest).
Proof. apply decodeLine_from_space_line. Qed.


Lemma trimCR_key_value K V1 :
  last V1 SP <> CR -> trimCR (K ++ COLON :: V1) = K ++ COLON :: V1.
Proof.
  intro H. rewrite trimCR_app by discriminate. f_equal.
  destruct V1 as [|c V1]; [reflexivity|].
  rewrite trimCR_cons by discriminate. f_equal.
  apply trimCR_noCR. exact H.
Qed.

Lemma not_In_key_value c K V :
  c <> COLON -> ~ In c K -> ~ In c V -> ~ In c (K ++ COLON :: V).
Proof.
  intros Hc HK HV Hin. apply in_app_or in Hin.
  destruct Hin as [Hin|[Hin|Hin]]; auto.
Qed.

Lemma LF_not_COLON : LF <> COLON.
Proof. discriminate. Qed.



(** Two readers that yield the same next logical line, and are left the
    same, give the same rest of the run. *)
Lemma run_same_line st r1 r2 :
  decodeLine r1 = decodeLine r2 -> run st r1 = run st r2.
Proof.
  intro H. destruct (decodeLine_returns r1) as [[[[k v] err] r'] [Hres _]].
  destruct err as [e|].
  - assert (Hres2 : decodeLine r2 = Returns (k, v, Some e, r'))
      by (rewrite <- H; exact Hres).
    destruct st as [| | |res]; [| | |reflexivity].
    all: rewrite (run_error _ r1 k v e r' Hres), (run_error _ r2 k v e r' Hres2);
      simpl; auto.
  - rewrite (run_step st r1 k v r' Hres).
    rewrite (run_step st r2 k v r') by (rewrite <- H; exact Hres). reflexivity.
Qed.


(** ** The calendar and event decoders *)

Lemma reads_size r ls r' : reads r ls r' -> bufio.size r' = bufio.size r.
Proof.
  induction 1 as [|r k v r1 ls r2 Hl _ IH]; [reflexivity|].
  rewrite IH. destruct (decodeLine_returns r) as [res [Hres Hok]].
  rewrite Hl in Hres. inversion Hres; subst. simpl in Hok. tauto.
Qed.

(** At the end of the input the line reader reports
    [io.ErrUnexpectedEOF]. *)
Lemma decodeLine_eof r :
  bufio.input r = [] -> 0 < bufio.size r ->
  decodeLine r = Returns ("", "", Some io_ErrUnexpectedEOF, bufio.mkReader (bufio.size r) []).
Proof.
  intros Hin Hsz. unfold decodeLine. rewrite decodeLine_from_eq.
  unfold decodeLine_body, bufio.ReadLine. rewrite Hin.
  destruct (bufio.size r) as [|n]; [lia|]. reflexivity.
Qed.

Lemma state_after_app ls1 ls2 :
  state_after (ls1 ++ ls2) = fold_left dstep ls2 (state_after ls1).
Proof. unfold state_after. apply fold_left_app. Qed.

Lemma fold_dstep_Finished ls res :
  fold_left dstep ls (Finished res) = Finished res.
Proof. induction ls as [|[k v] ls IH]; simpl; auto. Qed.

(** Lines before the first [BEGIN] are skipped, unless one of them is
    [END:VCALENDAR]. *)
Lemma state_after_skipped ls :
  (forall k v, In (k, v) ls -> k <> "BEGIN" /\ ~ (k = "END" /\ v = "VCALENDAR")) ->
  state_after ls = AtStart.
Proof.
  unfold state_after. induction ls as [|[k v] ls IH]; intro H; simpl; [reflexivity|].
  destruct (H k v (or_introl eq_refl)) as [Hb He].
  destruct (String.eqb_spec k "BEGIN") as [|_]; [contradiction|].
  destruct (String.eqb_spec k "END") as [->|_]; simpl.
  - destruct (String.eqb_spec v "VCALENDAR") as [->|_]; [tauto|].
    apply IH. intros; apply H; now right.
  - apply IH. intros; apply H; now right.
Qed.

(** Where the first [BEGIN] line does not open a [VCALENDAR], [Decode]
    returns "didn't find BEGIN:VCALENDAR" and no calendar. *)
Lemma Decode_first_BEGIN_not_VCALENDAR rd ls r value r' :
  reads (bufio.NewReader rd) ls r ->
  (forall k v, In (k, v) ls -> k <> "BEGIN" /\ ~ (k = "END" /\ v = "VCALENDAR")) ->
  decodeLine r = Returns ("BEGIN", value, None, r') ->
  value <> "VCALENDAR" ->
  Decode rd = Returns (None, Some (errors_New "didn't find BEGIN:VCALENDAR")).
Proof.
  intros Hreads Hskip Hl Hv.
  rewrite (Decode_reads _ _ _ Hreads), (state_after_skipped _ Hskip).
  rewrite (run_step _ _ _ _ _ Hl). simpl.
  destruct (String.eqb_spec value "VCALENDAR"); [contradiction|reflexivity].
Qed.

(** Where the input ends before any [BEGIN] line, [Decode] returns
    [io.ErrUnexpectedEOF] and no calendar. *)
Lemma Decode_eof_before_BEGIN rd ls r :
  reads (bufio.NewReader rd) ls r ->
  (forall k v, In (k, v) ls -> k <> "BEGIN" /\ ~ (k = "END" /\ v = "VCALENDAR")) ->
  bufio.input r = [] ->
  Decode rd = Returns (None, Some io_ErrUnexpectedEOF).
Proof.
  intros Hreads Hskip Hin.
  rewrite (Decode_reads _ _ _ Hreads), (state_after_skipped _ Hskip).
  eapply run_error; [|simpl; tauto].
  apply decodeLine_eof; [assumption|].
  rewrite (reads_size _ _ _ Hreads). simpl. unfold bufio.defaultBufSize. lia.
Qed.

(** Where [END:VCALENDAR] comes before any [BEGIN] line, [Decode] leaves
    its loop with [c] still nil, and [c.Event] panics. *)
Lemma Decode_END_before_BEGIN rd ls r r' :
  reads (bufio.NewReader rd) ls r ->
  (forall k v, In (k, v) ls -> k <> "BEGIN" /\ ~ (k = "END" /\ v = "VCALENDAR")) ->
  decodeLine r = Returns ("END", "VCALENDAR", None, r') ->
  Decode rd = Panics "invalid memory address or nil pointer dereference".
Proof.
  intros Hreads Hskip Hl.
  rewrite (Decode_reads _ _ _ Hreads), (state_after_skipped _ Hskip).
  rewrite (run_step _ _ _ _ _ Hl). reflexivity.
Qed.

(** C1.  On the input [END:VCALENDAR], whose first line is not
    [BEGIN:VCALENDAR], [Decode] does not return an error: it panics. *)
Theorem Decode_END_VCALENDAR_first_panics :
  Decode (text ["END:VCALENDAR"])
  = Panics "invalid memory address or nil pointer dereference".
Proof. vm_compute. reflexivity. Qed.


Lemma dstep_unrecognized st key value :
  recognized st key = false -> dstep st (key, value) = st.
Proof.
  destruct st as [|c|c e|res]; simpl; intro H.
  - apply orb_false_iff in H. destruct H as [-> ->]. reflexivity.
  - apply orb_false_iff in H. destruct H as [-> ->]. reflexivity.
  - unfold decodeEvent_switch.
    repeat (apply orb_false_iff in H; destruct H as [H ?]).
    repeat match goal with Hk : String.eqb _ _ = false |- _ => rewrite Hk; clear Hk end.
    reflexivity.
  - reflexivity.
Qed.

(** C8.  A line whose key is not recognized where it is read ([BEGIN] and
    [END] in the calendar; [END], [UID], [DTSTART], [DTEND], [SUMMARY],
    [LOCATION] and [DESCRIPTION] in an event) is ignored: the input with
    such a line among its logical lines decodes as the input without it. *)
Theorem unrecognized_line_is_ignored rd rd' ls1 ls2 key value r :
  reads (bufio.NewReader rd) (ls1 ++ ls2) r ->
  reads (bufio.NewReader rd') (ls1 ++ (key, value) :: ls2) r ->
  recognized (state_after ls1) key = false ->
  Decode rd' = Decode rd.
Proof.
  intros H H' Hk.
  rewrite (Decode_reads _ _ _ H), (Decode_reads _ _ _ H').
  rewrite !state_after_app.
  change (fold_left dstep ((key, value) :: ls2) (state_after ls1))
    with (fold_left dstep ls2 (dstep (state_after ls1) (key, value))).
  now rewrite dstep_unrecognized.
Qed.

Lemma dstep_plain c e l :
  plain l = true -> dstep (InEvent c e) l = InEvent c (assign e l).
Proof.
  destruct l as [k v]. unfold plain, assign. simpl.
  unfold decodeEvent_switch.
  destruct (String.eqb k "END"); [discriminate|]. simpl.
  destruct (String.eqb k "UID"); [reflexivity|].
  destruct (String.eqb k "DTSTART"); simpl.
  { destruct (decodeTime v) as [t [er|]]; [discriminate|reflexivity]. }
  destruct (String.eqb k "DTEND"); simpl.
  { destruct (decodeTime v) as [t [er|]]; [discriminate|reflexivity]. }
  intros _.
  repeat match goal with |- context [String.eqb ?a ?b] => destruct (String.eqb a b) end;
    reflexivity.
Qed.

Lemma fold_dstep_plain ls : forall c e,
  forallb plain ls = true ->
  fold_left dstep ls (InEvent c e) = InEvent c (fold_left assign ls e).
Proof.
  induction ls as [|l ls IH]; intros c e H; simpl; [reflexivity|].
  simpl in H. apply andb_true_iff in H. destruct H as [Hl Hls].
  rewrite dstep_plain by assumption. now apply IH.
Qed.

Lemma assign_BEGIN e value : assign e ("BEGIN", value) = e.
Proof. reflexivity. Qed.

Lemma plain_BEGIN value : plain ("BEGIN", value) = true.
Proof. reflexivity. Qed.

(** The lines of an event up to its [END:VEVENT], read inside
    [decodeEvent]. *)
Lemma decodeEvent_from_reads r ls r' : 
  reads r (ls ++ [("END", "VEVENT")]) r' ->
  forall e, forallb plain ls = true ->
  decodeEvent_from e None r = Returns (Some (fold_left assign ls e), None, r').
Proof.
  revert r. induction ls as [|[k v] ls IH]; intros r H e Hp; simpl in *.
  - inversion H as [|? ? ? ? ? ? Hl Hrest]; subst. inversion Hrest; subst.
    rewrite decodeEvent_from_eq. unfold decodeEvent_body. rewrite Hl. reflexivity.
  - inversion H as [|? ? ? r1 ? ? Hl Hrest]; subst.
    apply andb_true_iff in Hp. destruct Hp as [Hl1 Hp].
    rewrite decodeEvent_from_eq. unfold decodeEvent_body. rewrite Hl. simpl.
    pose proof (dstep_plain new_Calendar e (k, v) Hl1) as Hd. simpl in Hd.
    unfold assign.
    destruct (decodeEvent_switch e k v None) as [ev err|e' err].
    + destruct ev, err; discriminate.
    + destruct err; [discriminate|]. now apply IH.
Qed.


(** ** Unfolded text

    The logical lines of a text written one [key:value] per physical
    line, and the theorems above on such texts. *)

Lemma stripSP_key_value k v : stripSP k = k -> stripSP (k ++ COLON :: v) = k ++ COLON :: v.
Proof.
  destruct k as [|c k]; [reflexivity|]. simpl.
  destruct (Ascii.eqb c SP) eqn:E; [|reflexivity].
  intro H. apply (f_equal (@List.length ascii)) in H. simpl in H. lia.
Qed.

Lemma not_continued_key_value k v rest :
  stripSP k = k -> not_continued (k ++ COLON :: v ++ rest).
Proof.
  intros Hk c rest' H. destruct k as [|a k]; simpl in *.
  - inversion H; subst. discriminate.
  - inversion H; subst a rest'. intros ->.
    change (Ascii.eqb SP SP) with true in Hk.
    apply (f_equal (@List.length ascii)) in Hk. simpl in Hk. lia.
Qed.

(** An unfolded physical line is read back as its key and value. *)
Lemma decodeLine_rendered n l rest :
  unfolded n l -> not_continued rest ->
  decodeLine (bufio.mkReader n (render l ++ rest))
  = Returns (fst (as_line l), snd (as_line l), None, bufio.mkReader n rest).
Proof.
  destruct l as [k v]. intros (HkL & HkC & Hsp & HvL & Hcr & Hlen) Hrest.
  unfold render, as_line. simpl fst. simpl snd.
  replace ((k ++ COLON :: v ++ [LF]) ++ rest) with ((k ++ COLON :: v) ++ LF :: rest)
    by (rewrite <- !app_assoc; simpl; rewrite <- app_assoc; reflexivity).
  unfold decodeLine. rewrite decodeLine_from_line.
  - rewrite trimCR_key_value by assumption.
    rewrite stripSP_key_value by assumption. simpl app.
    unfold decodeLine_next. simpl bufio.input.
    destruct rest as [|c rest'].
    + now rewrite decodeLine_split_found.
    + destruct (Ascii.eqb_spec c SP) as [->|].
      * exfalso. eapply Hrest; eauto.
      * now rewrite decodeLine_split_found.
  - apply not_In_key_value; auto using LF_not_COLON.
  - assumption.
  - rewrite trimCR_key_value by assumption. destruct k; discriminate.
Qed.

Lemma not_continued_render_all n ls rest :
  Forall (unfolded n) ls -> not_continued rest -> not_continued (render_all ls ++ rest).
Proof.
  intros Hall Hrest. destruct ls as [|[k v] ls]; [exact Hrest|].
  inversion Hall as [|? ? Hl _]; subst. destruct Hl as (_ & _ & Hsp & _).
  unfold render_all. simpl. rewrite <- !app_assoc. simpl. rewrite <- !app_assoc.
  now apply not_continued_key_value.
Qed.

(** The logical lines of an unfolded text are its physical lines. *)
Lemma reads_rendered n ls : forall rest,
  Forall (unfolded n) ls -> not_continued rest ->
  reads (bufio.mkReader n (render_all ls ++ rest)) (map as_line ls) (bufio.mkReader n rest).
Proof.
  induction ls as [|l ls IH]; intros rest Hall Hrest.
  - constructor.
  - inversion Hall as [|? ? Hl Hls]; subst.
    change (render_all (l :: ls) ++ rest) with ((render l ++ render_all ls) ++ rest).
    rewrite <- app_assoc.
    change (map as_line (l :: ls)) with (as_line l :: map as_line ls).
    destruct (as_line l) as [key value] eqn:El.
    apply reads_cons with (r' := bufio.mkReader n (render_all ls ++ rest)).
    + rewrite (decodeLine_rendered n l) by eauto using not_continued_render_all.
      rewrite El. reflexivity.
    + now apply IH.
Qed.

Lemma not_continued_nil : not_continued [].
Proof. intros c rest H. discriminate H. Qed.

(** [Decode] on an unfolded text followed by [rest]. *)
Lemma Decode_rendered ls rest :
  Forall (unfolded bufio.defaultBufSize) ls -> not_continued rest ->
  Decode (render_all ls ++ rest)
  = run (state_after (map as_line ls)) (bufio.NewReader rest).
Proof.
  intros Hall Hrest. apply Decode_reads. now apply reads_rendered.
Qed.

(** The state inside an event opened in a calendar. *)
Lemma state_after_open_event ls c props :
  state_after ls = InCalendar c -> forallb plain props = true ->
  state_after (ls ++ ("BEGIN", "VEVENT") :: props)
  = InEvent c (fold_left assign props new_Event).
Proof.
  intros Hst Hp. rewrite state_after_app, Hst.
  change (fold_left dstep (("BEGIN", "VEVENT") :: props) (InCalendar c))
    with (fold_left dstep props (InEvent c new_Event)).
  now apply fold_dstep_plain.
Qed.

(** An unfolded text that stops inside an event: [Decode] returns
    [io.ErrUnexpectedEOF] and no calendar. *)
Lemma Decode_truncated_event props :
  Forall (unfolded bufio.defaultBufSize) props ->
  forallb plain (map as_line props) = true ->
  Decode (text ["BEGIN:VCALENDAR"; "BEGIN:VEVENT"] ++ render_all props)
  = Returns (None, Some io_ErrUnexpectedEOF).
Proof.
  intros Hall Hp.
  assert (Hreads : reads (bufio.NewReader
                            (text ["BEGIN:VCALENDAR"; "BEGIN:VEVENT"] ++ render_all props))
                     ([("BEGIN", "VCALENDAR"); ("BEGIN", "VEVENT")] ++ map as_line props)
                     (bufio.NewReader [])).
  { pose proof (reads_rendered bufio.defaultBufSize
                  ((Bytes_of "BEGIN", Bytes_of "VCALENDAR")
                   :: (Bytes_of "BEGIN", Bytes_of "VEVENT") :: props) []) as H.
    rewrite app_nil_r in H. apply H; [|apply not_continued_nil].
    constructor; [|constructor; [|assumption]];
      unfold unfolded, bufio.defaultBufSize;
      repeat split; try not_in_list; try discriminate; simpl; lia. }
  rewrite (Decode_reads _ _ _ Hreads).
  etransitivity.
  { apply (f_equal (fun st => run st _)).
    exact (state_after_open_event [("BEGIN", "VCALENDAR")] new_Calendar _ eq_refl Hp). }
  eapply run_error; [|simpl; tauto].
  apply decodeLine_eof; [reflexivity|].
  simpl. unfold bufio.defaultBufSize. lia.
Qed.

(** A line with an unrecognized key put between the lines of an unfolded
    text changes nothing. *)
Lemma Decode_rendered_unrecognized ls1 l ls2 rest :
  Forall (unfolded bufio.defaultBufSize) (ls1 ++ l :: ls2) ->
  not_continued rest ->
  recognized (state_after (map as_line ls1)) (fst (as_line l)) = false ->
  Decode (render_all (ls1 ++ l :: ls2) ++ rest)
  = Decode (render_all (ls1 ++ ls2) ++ rest).
Proof.
  intros Hall Hrest Hk.
  assert (Hall' : Forall (unfolded bufio.defaultBufSize) (ls1 ++ ls2)).
  { apply Forall_app in Hall. destruct Hall as [H1 H2].
    inversion H2; subst. apply Forall_app. auto. }
  rewrite !Decode_rendered by assumption.
  rewrite !map_app. rewrite !state_after_app.
  change (map as_line (l :: ls2)) with (as_line l :: map as_line ls2).
  destruct (as_line l) as [key value].
  change (fold_left dstep ((key, value) :: map as_line ls2)
            (state_after (map as_line ls1)))
    with (fold_left dstep (map as_line ls2)
            (dstep (state_after (map as_line ls1)) (key, value))).
  now rewrite dstep_unrecognized.
Qed.

(** ** Timestamps *)

Section TimeParse.

Import time.
Local Open Scope Z_scope.

Lemma is_digit_not_sign c :
  is_digit c = true -> (Ascii.eqb c "-" || Ascii.eqb c "+")%bool = false.
Proof.
  intro H.
  destruct (Ascii.eqb_spec c "-") as [->|]; [discriminate H|].
  destruct (Ascii.eqb_spec c "+") as [->|]; [discriminate H|]. reflexivity.
Qed.

Lemma is_digit_not_Z c : is_digit c = true -> Ascii.eqb c "Z" = false.
Proof.
  intro H. destruct (Ascii.eqb_spec c "Z") as [->|]; [discriminate H|reflexivity].
Qed.

Lemma digit_val_range c : is_digit c = true -> 0 <= digit_val c <= 9.
Proof.
  unfold is_digit, digit_val, Ascii.leb. intro H.
  apply andb_true_iff in H. destruct H as [H1 H2].
  apply N.leb_le in H1, H2.
  change (N_of_ascii "0") with 48%N in H1.
  change (N_of_ascii "9") with 57%N in H2. lia.
Qed.

Lemma digit_val_inj a b :
  is_digit a = true -> digit_val a = digit_val b -> a = b.
Proof.
  unfold digit_val. intros _ H.
  assert (E : N_of_ascii a = N_of_ascii b) by lia.
  apply (f_equal ascii_of_N) in E. now rewrite !ascii_N_embedding in E.
Qed.

Lemma leadingInt_all s : forall x q,
  leadingInt x s = (q, []) -> forallb is_digit s = true.
Proof.
  induction s as [|c s IH]; intros x q H; simpl in *; [reflexivity|].
  destruct (is_digit c); [|discriminate]. simpl. eauto.
Qed.

Lemma atoi_digits c s x :
  is_digit c = true -> atoi (c :: s) = Some x ->
  forallb is_digit s = true /\ x = fst (leadingInt 0 (c :: s)).
Proof.
  intros Hc. unfold atoi. rewrite (is_digit_not_sign c Hc).
  destruct (leadingInt 0 (c :: s)) as [q rem] eqn:E.
  destruct rem; [|discriminate]. intro H; inversion H; subst.
  apply leadingInt_all in E. simpl in E. rewrite Hc in E. auto.
Qed.

Lemma getnum_fixed_inv s x s' :
  getnum s true = Some (x, s') ->
  exists a b, s = a :: b :: s' /\ is_digit a = true /\ is_digit b = true /\
              x = digit_val a * 10 + digit_val b.
Proof.
  unfold getnum, isDigit.
  destruct s as [|a [|b s0]]; simpl.
  - discriminate.
  - destruct (is_digit a); discriminate.
  - destruct (is_digit a) eqn:Ea; simpl; [|discriminate].
    destruct (is_digit b) eqn:Eb; simpl; [|discriminate].
    intro H; inversion H; subst. eauto 10.
Qed.

Lemma getnum_free_inv s x s' :
  getnum s false = Some (x, s') ->
  (exists a b, s = a :: b :: s' /\ is_digit a = true /\ is_digit b = true /\
               x = digit_val a * 10 + digit_val b) \/
  (exists a, s = a :: s' /\ is_digit a = true /\ isDigit s' 0 = false).
Proof.
  unfold getnum, isDigit.
  destruct s as [|a [|b s0]]; simpl.
  - discriminate.
  - destruct (is_digit a) eqn:Ea; simpl; [|discriminate].
    intro H; inversion H; subst. right. eauto.
  - destruct (is_digit a) eqn:Ea; simpl; [|discriminate].
    destruct (is_digit b) eqn:Eb; simpl; intro H; inversion H; subst.
    + left. eauto 10.
    + right. exists a. simpl. rewrite Eb. auto.
Qed.

Lemma getnum_needs_digit s fixed : isDigit s 0 = false -> getnum s fixed = None.
Proof. unfold getnum. intros ->. reflexivity. Qed.

Lemma scanDigits_skipn fuel : forall pre l,
  (List.length l <= fuel)%nat ->
  skipn (scanDigits fuel (pre ++ l) (List.length pre)) (pre ++ l) = drop_digits l.
Proof.
  induction fuel as [|fuel IH]; intros pre l Hlen; simpl.
  - destruct l; [|simpl in Hlen; lia]. rewrite app_nil_r. apply skipn_all.
  - destruct l as [|c l].
    + rewrite app_nil_r. rewrite Nat.ltb_irrefl. simpl. apply skipn_all.
    + assert (Hlt : Nat.ltb (List.length pre) (List.length (pre ++ c :: l)) = true).
      { apply Nat.ltb_lt. rewrite length_app. simpl. lia. }
      rewrite Hlt. unfold isDigit.
      rewrite nth_error_app2 by lia. rewrite Nat.sub_diag. simpl.
      destruct (is_digit c) eqn:Ec.
      * replace (pre ++ c :: l) with ((pre ++ [c]) ++ l)
          by (rewrite <- app_assoc; reflexivity).
        replace (S (List.length pre)) with (List.length (pre ++ [c]))
          by (rewrite length_app; simpl; lia).
        apply IH. simpl in Hlen. lia.
      * rewrite skipn_app, skipn_all, Nat.sub_diag. reflexivity.
Qed.

Lemma drop_digits_Z l : drop_digits l = ["Z"%char] -> digits_then_Z l = true.
Proof.
  induction l as [|c l IH]; simpl; [discriminate|].
  destruct (is_digit c) eqn:Ec.
  - intro H. specialize (IH H). destruct l; [discriminate|]. simpl. exact IH.
  - intro H. inversion H; subst. reflexivity.
Qed.

(** A value that parses with nothing but [Z] after the optional fraction
    has the form of one. *)
Lemma fractionalSecond_shape value nsec :
  fractionalSecond value = Some (nsec, ["Z"%char]) ->
  fraction_then_Z value = true.
Proof.
  unfold fractionalSecond.
  destruct value as [|sep [|d l]].
  - discriminate.
  - simpl. intro H; inversion H; subst. reflexivity.
  - match goal with
    | |- context [if ?c then _ else _] =>
        assert (Hc : c = (commaOrPeriod sep && is_digit d)%bool) by reflexivity;
        rewrite Hc; clear Hc
    end.
    change (fraction_then_Z (sep :: d :: l))
      with (commaOrPeriod sep && is_digit d && digits_then_Z l)%bool.
    destruct (commaOrPeriod sep && is_digit d)%bool eqn:Ec.
    + pose proof (scanDigits_skipn (List.length (sep :: d :: l)) [sep; d] l) as Hs.
      change ([sep; d] ++ l) with (sep :: d :: l) in Hs.
      change (List.length [sep; d]) with 2%nat in Hs.
      cbv zeta. rewrite Hs by (simpl; lia).
      destruct (parseNanoseconds _ _); [|discriminate].
      intro H. injection H as Hn Hskip.
      simpl. now apply drop_digits_Z.
    + intro H; inversion H.
Qed.

Lemma skip1_inv value c rest : skip1 value c = Some rest -> value = c :: rest.
Proof.
  destruct value as [|a value]; simpl; [discriminate|].
  destruct (Ascii.eqb_spec a c) as [->|]; [|discriminate].
  intro H; inversion H; reflexivity.
Qed.

(** A value [Parse] accepts is fourteen digits around a [T], an optional
    fractional second and a [Z]; its fields are in range and the time is
    their [Date]. *)
Lemma Parse_inv v t :
  Parse_20060102T150405Z v = inl t ->
  exists y0 y1 y2 y3 m0 m1 d0 d1 h0 h1 n0 n1 s0 s1 rest nsec,
    v = y0 :: y1 :: y2 :: y3 :: m0 :: m1 :: d0 :: d1 :: "T"%char
        :: h0 :: h1 :: n0 :: n1 :: s0 :: s1 :: rest /\
    forallb is_digit [y0; y1; y2; y3; m0; m1; d0; d1; h0; h1; n0; n1; s0; s1] = true /\
    fractionalSecond rest = Some (nsec, ["Z"%char]) /\
    let year := fst (leadingInt 0 [y0; y1; y2; y3]) in
    let month := digit_val m0 * 10 + digit_val m1 in
    let day := digit_val d0 * 10 + digit_val d1 in
    let hour := digit_val h0 * 10 + digit_val h1 in
    let min := digit_val n0 * 10 + digit_val n1 in
    let sec := digit_val s0 * 10 + digit_val s1 in
    1 <= month <= 12 /\ 1 <= day <= daysIn month year /\
    0 <= hour < 24 /\ 0 <= min < 60 /\ 0 <= sec < 60 /\
    t = Date year month day hour min sec nsec.
Proof.
  intro H. unfold Parse_20060102T150405Z, errBad, rangeErr in H.
  destruct v as [|y0 [|y1 [|y2 [|y3 v4]]]]; try discriminate H.
  change (Nat.ltb (List.length (y0 :: y1 :: y2 :: y3 :: v4)) 4) with false in H.
  change (isDigit (y0 :: y1 :: y2 :: y3 :: v4) 0) with (is_digit y0) in H.
  change (firstn 4 (y0 :: y1 :: y2 :: y3 :: v4)) with [y0; y1; y2; y3] in H.
  change (skipn 4 (y0 :: y1 :: y2 :: y3 :: v4)) with v4 in H.
  destruct (is_digit y0) eqn:Ey0; cbn [orb negb] in H; [|discriminate H].
  destruct (atoi [y0; y1; y2; y3]) as [year|] eqn:Ey; [|discriminate H].
  apply (atoi_digits _ _ _ Ey0) in Ey. destruct Ey as [Eyd ->].
  destruct (getnum v4 true) as [[month v5]|] eqn:Em; [|discriminate H].
  apply getnum_fixed_inv in Em. destruct Em as (m0 & m1 & -> & Em0 & Em1 & ->).
  destruct ((_ <=? 0) || (12 <? _)) eqn:Emr in H; [discriminate H|].
  destruct (getnum v5 true) as [[day v6]|] eqn:Ed; [|discriminate H].
  apply getnum_fixed_inv in Ed. destruct Ed as (d0 & d1 & -> & Ed0 & Ed1 & ->).
  destruct (skip1 v6 "T") as [v7|] eqn:Et; [|discriminate H].
  apply skip1_inv in Et. subst v6.
  destruct (getnum v7 false) as [[hour v8]|] eqn:Eh; [|discriminate H].
  destruct ((hour <? 0) || (24 <=? hour)) eqn:Ehr in H; [discriminate H|].
  apply getnum_free_inv in Eh.
  destruct Eh as [(h0 & h1 & -> & Eh0 & Eh1 & ->)|(h0 & -> & Eh0 & Eh1)].
  2:{ rewrite (getnum_needs_digit _ _ Eh1) in H. discriminate H. }
  destruct (getnum v8 true) as [[min v9]|] eqn:En; [|discriminate H].
  apply getnum_fixed_inv in En. destruct En as (n0 & n1 & -> & En0 & En1 & ->).
  destruct ((_ <? 0) || (60 <=? _)) eqn:Enr in H; [discriminate H|].
  destruct (getnum v9 true) as [[sec v10]|] eqn:Es; [|discriminate H].
  apply getnum_fixed_inv in Es. destruct Es as (s0 & s1 & -> & Es0 & Es1 & ->).
  destruct ((_ <? 0) || (60 <=? _)) eqn:Esr in H; [discriminate H|].
  destruct (fractionalSecond v10) as [[nsec v11]|] eqn:Ef; [|discriminate H].
  destruct (skip1 v11 "Z") as [v12|] eqn:Ez; [|discriminate H].
  apply skip1_inv in Ez. subst v11.
  destruct v12; [|discriminate H].
  destruct ((_ <? 1) || (_ <? _)) eqn:Edr in H; [discriminate H|].
  inversion H; subst t.
  exists y0, y1, y2, y3, m0, m1, d0, d1, h0, h1, n0, n1, s0, s1, v10, nsec.
  simpl in Eyd.
  split; [reflexivity|]. split.
  { simpl. rewrite Ey0, Em0, Em1, Ed0, Ed1, Eh0, Eh1, En0, En1, Es0, Es1.
    apply andb_true_iff in Eyd. destruct Eyd as [-> Eyd].
    apply andb_true_iff in Eyd. destruct Eyd as [-> Eyd].
    apply andb_true_iff in Eyd. destruct Eyd as [-> _]. reflexivity. }
  split; [exact Ef|].
  cbv zeta.
  apply orb_false_iff in Emr, Ehr, Enr, Esr, Edr.
  destruct Emr as [Emr1 Emr2], Ehr as [Ehr1 Ehr2], Enr as [Enr1 Enr2],
           Esr as [Esr1 Esr2], Edr as [Edr1 Edr2].
  apply Z.leb_gt in Emr1. apply Z.ltb_ge in Emr2, Ehr1, Enr1, Esr1, Edr1, Edr2.
  apply Z.leb_gt in Ehr2, Enr2, Esr2.
  repeat split; try lia.
Qed.

Lemma Parse_layout v t :
  Parse_20060102T150405Z v = inl t -> layout_then fraction_then_Z v = true.
Proof.
  intro H. apply Parse_inv in H.
  destruct H as (y0 & y1 & y2 & y3 & m0 & m1 & d0 & d1 & h0 & h1 & n0 & n1
                 & s0 & s1 & rest & nsec & -> & Hd & Hf & _).
  unfold layout_then. rewrite Hd.
  rewrite (fractionalSecond_shape _ _ Hf). reflexivity.
Qed.

(** [decodeTime] refuses every value that is not of the layout, with or
    without a fractional second. *)
Lemma decodeTime_refuses value :
  layout_with_fraction value = false ->
  exists msg, decodeTime value = (zero, Some (time_ParseError value msg)).
Proof.
  unfold layout_with_fraction, decodeTime, Parse. intro H.
  destruct (Parse_20060102T150405Z (Bytes_of value)) as [t|msg] eqn:E.
  - apply Parse_layout in E. congruence.
  - eauto.
Qed.

Lemma pow10_succ n : 10 ^ Z.of_nat (S n) = 10 * 10 ^ Z.of_nat n.
Proof. rewrite Nat2Z.inj_succ. apply Z.pow_succ_r. lia. Qed.

Lemma pow10_pos n : 0 < 10 ^ Z.of_nat n.
Proof. apply Z.pow_pos_nonneg; lia. Qed.

Lemma leadingInt_bound s : forall x,
  0 <= x -> forallb is_digit s = true ->
  x * 10 ^ Z.of_nat (List.length s) <= fst (leadingInt x s)
  < (x + 1) * 10 ^ Z.of_nat (List.length s).
Proof.
  induction s as [|c s IH]; intros x Hx Hd.
  - simpl. lia.
  - simpl in Hd. apply andb_true_iff in Hd. destruct Hd as [Hc Hd].
    simpl leadingInt. rewrite Hc.
    pose proof (digit_val_range c Hc) as Hr.
    specialize (IH (x * 10 + digit_val c) ltac:(lia) Hd).
    change (List.length (c :: s)) with (S (List.length s)).
    rewrite pow10_succ. pose proof (pow10_pos (List.length s)). nia.
Qed.

Lemma scanDigits_ge fuel : forall value n, (n <= scanDigits fuel value n)%nat.
Proof.
  induction fuel as [|fuel IH]; intros value n; simpl; [lia|].
  destruct (Nat.ltb n (List.length value) && isDigit value n)%bool; [|lia].
  specialize (IH value (S n)). lia.
Qed.

Lemma parseNanoseconds_bound sep d l n nsec :
  is_digit d = true -> (2 <= n)%nat ->
  parseNanoseconds (sep :: d :: l) n = Some nsec ->
  0 <= nsec < 10 ^ 9.
Proof.
  intros Hd Hn. unfold parseNanoseconds.
  destruct (negb _); [discriminate|].
  assert (Hgen : forall value' nb, (2 <= nb <= 10)%nat ->
            (exists l', value' = sep :: d :: l') ->
            match atoi (skipn 1 (firstn nb value')) with
            | Some ns => Some (ns * 10 ^ Z.of_nat (10 - nb))
            | None => None
            end = Some nsec -> 0 <= nsec < 10 ^ 9).
  { intros value' nb Hnb [l' ->].
    remember (10 - nb)%nat as e eqn:He.
    destruct nb as [|[|k]]; try lia.
    change (skipn 1 (firstn (S (S k)) (sep :: d :: l'))) with (d :: firstn k l').
    destruct (atoi (d :: firstn k l')) as [ns|] eqn:Ea; [|discriminate].
    intro H; inversion H; subst nsec.
    apply (atoi_digits _ _ _ Hd) in Ea. destruct Ea as [Hds ->].
    pose proof (leadingInt_bound (d :: firstn k l') 0 ltac:(lia)) as Hb.
    simpl forallb in Hb. rewrite Hd, Hds in Hb. specialize (Hb eq_refl).
    set (m := List.length (d :: firstn k l')) in *.
    assert (Hm : (m <= S k)%nat).
    { unfold m. simpl. rewrite length_firstn. lia. }
    assert (Hp : 10 ^ Z.of_nat m * 10 ^ Z.of_nat e <= 10 ^ 9).
    { rewrite <- Z.pow_add_r by lia.
      apply Z.pow_le_mono_r; lia. }
    pose proof (pow10_pos e) as Hp2.
    pose proof (pow10_pos m) as Hp1.
    remember (fst (leadingInt 0 (d :: firstn k l'))) as q eqn:Eq. clear Eq.
    remember (10 ^ Z.of_nat m) as P1 eqn:E1. clear E1.
    remember (10 ^ Z.of_nat e) as P2 eqn:E2. clear E2.
    remember (10 ^ 9) as B eqn:EB. clear EB.
    split; [nia|].
    apply Z.lt_le_trans with (P1 * P2); [nia|assumption]. }
  destruct (Nat.ltb_spec 10 n).
  - apply Hgen; [lia|]. exists (firstn 8 l). reflexivity.
  - apply Hgen; [lia|]. eauto.
Qed.

Lemma fractionalSecond_bound value nsec rest :
  fractionalSecond value = Some (nsec, rest) -> 0 <= nsec < 10 ^ 9.
Proof.
  unfold fractionalSecond.
  destruct value as [|sep [|d l]].
  - simpl. intro H; inversion H; lia.
  - simpl. intro H; inversion H; lia.
  - match goal with
    | |- context [if ?c then _ else _] =>
        assert (Hc : c = (commaOrPeriod sep && is_digit d)%bool) by reflexivity;
        rewrite Hc; clear Hc
    end.
    destruct (commaOrPeriod sep && is_digit d)%bool eqn:Ec.
    + apply andb_true_iff in Ec. destruct Ec as [_ Hd]. cbv zeta.
      destruct (parseNanoseconds _ _) as [ns|] eqn:Ep; [|discriminate].
      intro H; inversion H; subst.
      eapply parseNanoseconds_bound; [exact Hd| |exact Ep].
      apply scanDigits_ge.
    + intro H; inversion H; lia.
Qed.

(** [Date] on fields in their usual ranges. *)
Lemma Date_in_range y m d h mi s ns :
  1 <= m <= 12 -> 0 <= h < 24 -> 0 <= mi < 60 -> 0 <= s < 60 -> 0 <= ns < 10 ^ 9 ->
  Date y m d h mi s ns
  = mkTime ((daysSinceYear1 y + daysBefore (m - 1)
             + (if isLeap y && (3 <=? m) then 1 else 0) + (d - 1)) * 86400
            + h * 3600 + mi * 60 + s) ns.
Proof.
  intros Hm Hh Hmi Hs Hns. unfold Date, norm.
  change (10 ^ 9) with 1000000000 in Hns.
  rewrite (Z.div_small (m - 1) 12), (Z.mod_small (m - 1) 12) by lia.
  rewrite (Z.div_small ns), (Z.mod_small ns) by lia.
  rewrite !Z.add_0_r.
  rewrite (Z.div_small s), (Z.mod_small s) by lia. rewrite !Z.add_0_r.
  rewrite (Z.div_small mi), (Z.mod_small mi) by lia. rewrite !Z.add_0_r.
  rewrite (Z.div_small h), (Z.mod_small h) by lia. rewrite !Z.add_0_r.
  replace (m - 1 + 1) with m by lia.
  reflexivity.
Qed.

(** Only January 1, year 1, 00:00:00 is the zero time. *)
Lemma Date_zero_inv y m d h mi s ns :
  0 <= y -> 1 <= m <= 12 -> 1 <= d <= daysIn m y ->
  0 <= h < 24 -> 0 <= mi < 60 -> 0 <= s < 60 -> 0 <= ns < 10 ^ 9 ->
  IsZero (Date y m d h mi s ns) = true ->
  y = 1 /\ m = 1 /\ d = 1 /\ h = 0 /\ mi = 0 /\ s = 0 /\ ns = 0.
Proof.
  intros Hy Hm Hd Hh Hmi Hs Hns.
  rewrite Date_in_range by assumption.
  unfold IsZero. simpl sec. simpl nsec. intro H.
  apply andb_true_iff in H. destruct H as [H1 H2].
  apply Z.eqb_eq in H1, H2.
  set (adj := if isLeap y && (3 <=? m) then 1 else 0) in *.
  assert (Hadj : 0 <= adj) by (unfold adj; destruct (isLeap y && (3 <=? m)); lia).
  assert (Hin : adj + d <= daysBefore m - daysBefore (m - 1) + 1).
  { unfold daysIn in Hd. destruct (Z.eqb_spec m 2) as [->|Hm2].
    - unfold adj. rewrite andb_false_r.
      destruct (isLeap y); simpl in Hd |- *; lia.
    - simpl in Hd. unfold adj. destruct (isLeap y && (3 <=? m)); lia. }
  assert (Hd1 : 1 <= d) by lia.
  clearbody adj. clear Hd.
  unfold daysSinceYear1 in H1.
  assert (Hcases : m = 1 \/ m = 2 \/ m = 3 \/ m = 4 \/ m = 5 \/ m = 6 \/ m = 7
                   \/ m = 8 \/ m = 9 \/ m = 10 \/ m = 11 \/ m = 12) by lia.
  repeat (destruct Hcases as [->|Hcases]); try subst m;
    simpl daysBefore in Hin, H1;
    Z.to_euclidean_division_equations; lia.
Qed.

Lemma leadingInt_4 a b c d :
  is_digit a = true -> is_digit b = true -> is_digit c = true -> is_digit d = true ->
  fst (leadingInt 0 [a; b; c; d])
  = ((digit_val a * 10 + digit_val b) * 10 + digit_val c) * 10 + digit_val d.
Proof. intros Ha Hb Hc Hd. simpl. rewrite Ha, Hb, Hc, Hd. reflexivity. Qed.

(** The only timestamps [decodeTime] turns into the zero time are those
    of January 1, year 1, 00:00:00. *)
Lemma decodeTime_zero_inv value t :
  decodeTime value = (t, None) -> IsZero t = true ->
  exists rest, Bytes_of value = Bytes_of "00010101T000000" ++ rest.
Proof.
  unfold decodeTime, Parse. intros H Hz.
  destruct (Parse_20060102T150405Z (Bytes_of value)) as [t'|msg] eqn:E;
    [|discriminate].
  inversion H; subst t'. apply Parse_inv in E.
  destruct E as (y0 & y1 & y2 & y3 & m0 & m1 & d0 & d1 & h0 & h1 & n0 & n1
                 & s0 & s1 & rest & ns & -> & Hd & Hf & Hr).
  cbv zeta in Hr. destruct Hr as (Hm & Hday & Hh & Hn & Hs & ->).
  simpl in Hd.
  repeat (apply andb_true_iff in Hd; destruct Hd as [? Hd]).
  rewrite leadingInt_4 in * by assumption.
  repeat match goal with
         | Hx : is_digit ?c = true |- _ =>
             pose proof (digit_val_range c Hx); revert Hx
         end.
  intros.
  apply Date_zero_inv in Hz; try lia.
  2:{ eapply fractionalSecond_bound; eauto. }
  destruct Hz as (Hy1 & Hm1 & Hd1 & Hh1 & Hn1 & Hs1 & _).
  exists rest.
  assert (Ey0 : y0 = "0"%char) by (apply digit_val_inj; [assumption|change (digit_val "0") with 0; lia]).
  assert (Ey1 : y1 = "0"%char) by (apply digit_val_inj; [assumption|change (digit_val "0") with 0; lia]).
  assert (Ey2 : y2 = "0"%char) by (apply digit_val_inj; [assumption|change (digit_val "0") with 0; lia]).
  assert (Ey3 : y3 = "1"%char) by (apply digit_val_inj; [assumption|change (digit_val "1") with 1; lia]).
  assert (Em0 : m0 = "0"%char) by (apply digit_val_inj; [assumption|change (digit_val "0") with 0; lia]).
  assert (Em1 : m1 = "1"%char) by (apply digit_val_inj; [assumption|change (digit_val "1") with 1; lia]).
  assert (Ed0 : d0 = "0"%char) by (apply digit_val_inj; [assumption|change (digit_val "0") with 0; lia]).
  assert (Ed1 : d1 = "1"%char) by (apply digit_val_inj; [assumption|change (digit_val "1") with 1; lia]).
  assert (Eh0 : h0 = "0"%char) by (apply digit_val_inj; [assumption|change (digit_val "0") with 0; lia]).
  assert (Eh1 : h1 = "0"%char) by (apply digit_val_inj; [assumption|change (digit_val "0") with 0; lia]).
  assert (En0 : n0 = "0"%char) by (apply digit_val_inj; [assumption|change (digit_val "0") with 0; lia]).
  assert (En1 : n1 = "0"%char) by (apply digit_val_inj; [assumption|change (digit_val "0") with 0; lia]).
  assert (Es0 : s0 = "0"%char) by (apply digit_val_inj; [assumption|change (digit_val "0") with 0; lia]).
  assert (Es1 : s1 = "0"%char) by (apply digit_val_inj; [assumption|change (digit_val "0") with 0; lia]).
  subst. reflexivity.
Qed.

End TimeParse.

(** [DTSTART] and [DTEND] inside an event: a value [decodeTime] refuses
    ends the run of [Decode] with its error. *)
Lemma dstep_bad_time c e key value t er :
  key = "DTSTART" \/ key = "DTEND" ->
  decodeTime value = (t, Some er) ->
  dstep (InEvent c e) (key, value) = Finished (Returns (None, Some er)).
Proof.
  intros [->| ->] H; simpl; unfold decodeEvent_switch; simpl; rewrite H; reflexivity.
Qed.

(** C5.  A [DTSTART] or [DTEND] line inside an event whose
    value is not of the layout YYYYMMDDThhmmssZ, with or without a
    fractional second before the [Z], makes [Decode] return the
    [*time.ParseError] of that value, a value-format error, and no
    calendar. *)
Theorem bad_timestamp_aborts_Decode rd ls r c e key value r' :
  reads (bufio.NewReader rd) ls r ->
  state_after ls = InEvent c e ->
  decodeLine r = Returns (key, value, None, r') ->
  key = "DTSTART" \/ key = "DTEND" ->
  layout_with_fraction value = false ->
  exists msg,
    Decode rd = Returns (None, Some (time_ParseError value msg)) /\
    kind_of (time_ParseError value msg) = Some ValueFormatError.
Proof.
  intros Hreads Hst Hl Hk Hv.
  destruct (decodeTime_refuses value Hv) as [msg Hmsg].
  exists msg. split; [|reflexivity].
  rewrite (Decode_reads _ _ _ Hreads), Hst, (run_step _ _ _ _ _ Hl).
  rewrite (dstep_bad_time c e key value _ _ Hk Hmsg). reflexivity.
Qed.

Lemma assign_Start e key value :
  key <> "DTSTART" -> Start (assign e (key, value)) = Start e.
Proof.
  intro Hk. unfold assign, decodeEvent_switch.
  destruct (String.eqb_spec key "DTSTART") as [|_]; [contradiction|].
  repeat match goal with
         | |- context [String.eqb ?a ?b] => destruct (String.eqb a b); simpl
         | |- context [decodeTime ?v] => destruct (decodeTime v); simpl
         end; reflexivity.
Qed.

Lemma assign_End e key value :
  key <> "DTEND" -> End_ (assign e (key, value)) = End_ e.
Proof.
  intro Hk. unfold assign, decodeEvent_switch.
  destruct (String.eqb_spec key "DTEND") as [|_]; [contradiction|].
  repeat match goal with
         | |- context [String.eqb ?a ?b] => destruct (String.eqb a b); simpl
         | |- context [decodeTime ?v] => destruct (decodeTime v); simpl
         end; reflexivity.
Qed.

Lemma fold_assign_Start ls : forall e,
  (forall v, ~ In ("DTSTART", v) ls) -> Start (fold_left assign ls e) = Start e.
Proof.
  induction ls as [|[k v] ls IH]; intros e H; simpl; [reflexivity|].
  rewrite IH by (intros v' Hin; apply (H v'); now right).
  apply assign_Start. intros ->. apply (H v). now left.
Qed.

Lemma fold_assign_End ls : forall e,
  (forall v, ~ In ("DTEND", v) ls) -> End_ (fold_left assign ls e) = End_ e.
Proof.
  induction ls as [|[k v] ls IH]; intros e H; simpl; [reflexivity|].
  rewrite IH by (intros v' Hin; apply (H v'); now right).
  apply assign_End. intros ->. apply (H v). now left.
Qed.

(** C2.  An event decoded from lines without [DTSTART] (without
    [DTEND]) has the zero time as its [Start] ([End]); the timestamp
    00010101T000000Z decodes to that same zero time; and no timestamp
    other than one of January 1, year 1, 00:00:00 does. *)
Theorem absent_timestamp_is_the_zero_time r ls r' :
  reads r (ls ++ [("END", "VEVENT")]) r' ->
  forallb plain ls = true ->
  (exists e, decodeEvent r = Returns (Some e, None, r') /\
             ((forall v, ~ In ("DTSTART", v) ls) -> Start e = time.zero) /\
             ((forall v, ~ In ("DTEND", v) ls) -> End_ e = time.zero)) /\
  decodeTime "00010101T000000Z" = (time.zero, None) /\
  (forall value t, decodeTime value = (t, None) -> time.IsZero t = true ->
     exists rest, Bytes_of value = Bytes_of "00010101T000000" ++ rest).
Proof.
  intros Hreads Hp. split; [|split].
  - exists (fold_left assign ls new_Event). split; [|split].
    + unfold decodeEvent. now apply decodeEvent_from_reads.
    + intro H. now rewrite fold_assign_Start.
    + intro H. now rewrite fold_assign_End.
  - vm_compute. reflexivity.
  - apply decodeTime_zero_inv.
Qed.

(** ** Ordering *)

Section Ordering.

Import time.
Local Open Scope Z_scope.














End Ordering.




(* ================================================================= *)
(** * Examples *)

Example Decode_cal3 : Decode cal3 = Returns (Some cal3_sorted, None).
Proof. vm_compute. reflexivity. Qed.

(** The timestamp examples of the specification. *)
Example decodeTime_missing_seconds :
  decodeTime "20110601T1000Z"
  = (time.zero, Some (time_ParseError "20110601T1000Z" "")).
Proof. vm_compute. reflexivity. Qed.

Example Decode_missing_seconds :
  Decode (text ["BEGIN:VCALENDAR"; "BEGIN:VEVENT"; "DTSTART:20110601T1000Z";
                "END:VEVENT"; "END:VCALENDAR"])
  = Returns (None, Some (time_ParseError "20110601T1000Z" "")).
Proof. vm_compute. reflexivity. Qed.

Example decodeTime_epoch :
  decodeTime "19700101T000000Z" = (time.mkTime 62135596800 0, None).
Proof. vm_compute. reflexivity. Qed.

(** A line without a colon. *)
Example Decode_garbage :
  Decode (text ["BEGIN:VCALENDAR"; "GARBAGE"])
  = Returns (None, Some (errors_New "bad line, couldn't find key:value")).
Proof. vm_compute. reflexivity. Qed.

(** A first line with a leading space. *)
Example Decode_leading_space :
  Decode (SP :: text ["BEGIN:VCALENDAR"; "END:VCALENDAR"])
  = Returns (Some (mkCalendar []), None).
Proof. vm_compute. reflexivity. Qed.

(** A well-formed calendar of one event. *)
Example Decode_one_event :
  Decode (text ["BEGIN:VCALENDAR"; "BEGIN:VEVENT"; "UID:u1";
                "DTSTART:20110601T100000Z"; "DTEND:20110601T113000Z";
                "SUMMARY:Lunch; with\, Bob"; "LOCATION:Cafe"; "DESCRIPTION:d:e";
                "END:VEVENT"; "END:VCALENDAR"])
  = Returns (Some (mkCalendar
      [mkEvent "u1" (time.Date 2011 6 1 10 0 0 0) (time.Date 2011 6 1 11 30 0 0)
               "Lunch; with\, Bob" "Cafe" "d:e"]), None).
Proof. vm_compute. reflexivity. Qed.

(** A [VEVENT] block nested in another gives one event; the second
    [END:VEVENT] is read in the calendar and ignored. *)
Example Decode_nested_event :
  Decode (text ["BEGIN:VCALENDAR"; "BEGIN:VEVENT"; "UID:1"; "SUMMARY:outer";
                "BEGIN:VEVENT"; "SUMMARY:inner"; "END:VEVENT"; "END:VEVENT";
                "END:VCALENDAR"])
  = Returns (Some (mkCalendar [mkEvent "1" time.zero time.zero "inner" "" ""]), None).
Proof. vm_compute. reflexivity. Qed.

(** Lines before [BEGIN:VCALENDAR] are skipped. *)
Example Decode_skips_lines_before_BEGIN :
  Decode (text ["VERSION:2.0"; "BEGIN:VCALENDAR"; "END:VCALENDAR"])
  = Returns (Some (mkCalendar []), None).
Proof. vm_compute. reflexivity. Qed.

(** A first [BEGIN] that is not [VCALENDAR]. *)
Example Decode_BEGIN_VEVENT_first :
  Decode (text ["BEGIN:VEVENT"; "END:VEVENT"])
  = Returns (None, Some (errors_New "didn't find BEGIN:VCALENDAR")).
Proof. vm_compute. reflexivity. Qed.

(* ================================================================= *)
(** * Counterexamples *)

(** C2.  An event without [DTSTART] and an event with
    [DTSTART:00010101T000000Z] decode to the same calendar, and [Less]
    treats the two events alike. *)
Lemma absent_DTSTART_is_not_distinguishable :
  let absent := text ["BEGIN:VCALENDAR"; "BEGIN:VEVENT"; "UID:1";
                      "END:VEVENT"; "END:VCALENDAR"] in
  let zero := text ["BEGIN:VCALENDAR"; "BEGIN:VEVENT"; "UID:1";
                    "DTSTART:00010101T000000Z"; "END:VEVENT"; "END:VCALENDAR"] in
  Decode absent = Decode zero /\
  Decode zero
  = Returns (Some (mkCalendar [mkEvent "1" time.zero time.zero "" "" ""]), None).
Proof. vm_compute. split; reflexivity. Qed.



(** C5.  A [DTSTART] with a fractional second is not of the exact layout
    YYYYMMDDThhmmssZ, and is decoded all the same. *)
Lemma fractional_second_is_accepted :
  layout_exact "20110601T100000.5Z" = false /\
  Decode (text ["BEGIN:VCALENDAR"; "BEGIN:VEVENT"; "DTSTART:20110601T100000.5Z";
                "END:VEVENT"; "END:VCALENDAR"])
  = Returns (Some (mkCalendar
      [mkEvent "" (time.Date 2011 6 1 10 0 0 500000000) time.zero "" "" ""]), None).
Proof. vm_compute. split; reflexivity. Qed.

(* ================================================================= *)
(** * Instances of the theorems *)

Lemma absent_timestamp_witness :
  let r := bufio.NewReader (text ["UID:1"; "SUMMARY:s"; "END:VEVENT"; "END:VCALENDAR"]) in
  let r' := bufio.NewReader (text ["END:VCALENDAR"]) in
  let ls := [("UID", "1"); ("SUMMARY", "s")] in
  reads r (ls ++ [("END", "VEVENT")]) r' /\
  forallb plain ls = true /\
  exists e, decodeEvent r = Returns (Some e, None, r') /\ Start e = time.zero.
Proof.
  intros r r' ls.
  assert (Hreads : reads r (ls ++ [("END", "VEVENT")]) r') by read_lines.
  assert (Hplain : forallb plain ls = true) by reflexivity.
  split; [exact Hreads|]. split; [exact Hplain|].
  destruct (absent_timestamp_is_the_zero_time r ls r' Hreads Hplain)
    as [[e [He [Hs _]]] _].
  exists e. split; [exact He|]. apply Hs.
  intros v [H|[H|[]]]; discriminate H.
Defined.



Lemma bad_timestamp_witness :
  let rd := text ["BEGIN:VCALENDAR"; "BEGIN:VEVENT"; "UID:1";
                  "DTEND:20110601T1000Z"; "END:VEVENT"; "END:VCALENDAR"] in
  let ls := [("BEGIN", "VCALENDAR"); ("BEGIN", "VEVENT"); ("UID", "1")] in
  let r := bufio.NewReader (text ["DTEND:20110601T1000Z"; "END:VEVENT"; "END:VCALENDAR"]) in
  let r' := bufio.NewReader (text ["END:VEVENT"; "END:VCALENDAR"]) in
  let e := mkEvent "1" time.zero time.zero "" "" "" in
  reads (bufio.NewReader rd) ls r /\
  state_after ls = InEvent new_Calendar e /\
  decodeLine r = Returns ("DTEND", "20110601T1000Z", None, r') /\
  layout_with_fraction "20110601T1000Z" = false /\
  exists msg, Decode rd = Returns (None, Some (time_ParseError "20110601T1000Z" msg)).
Proof.
  intros rd ls r r' e.
  assert (Hreads : reads (bufio.NewReader rd) ls r) by read_lines.
  assert (Hst : state_after ls = InEvent new_Calendar e) by reflexivity.
  assert (Hl : decodeLine r = Returns ("DTEND", "20110601T1000Z", None, r'))
    by (vm_compute; reflexivity).
  assert (Hv : layout_with_fraction "20110601T1000Z" = false) by reflexivity.
  repeat (split; [assumption|]).
  destruct (bad_timestamp_aborts_Decode rd ls r new_Calendar e "DTEND"
              "20110601T1000Z" r' Hreads Hst Hl (or_intror eq_refl) Hv)
    as [msg [H _]].
  exists msg. exact H.
Defined.


Lemma decodeLine_splits_witness :
  let r := bufio.NewReader (text ["DESCRIPTION:at 10:30"; "UID:1"]) in
  let r' := bufio.NewReader (text ["UID:1"]) in
  logical_line [] r (Bytes_of "DESCRIPTION:at 10:30") r' /\
  decodeLine r = Returns ("DESCRIPTION", "at 10:30", None, r').
Proof.
  intros r r'.
  assert (HL : logical_line [] r (Bytes_of "DESCRIPTION:at 10:30") r').
  { apply (logical_last [] r (Bytes_of "DESCRIPTION:at 10:30") r').
    - vm_compute. reflexivity.
    - discriminate.
    - intros c rest H. inversion H. discriminate. }
  split; [exact HL|].
  apply (proj1 (decodeLine_splits_at_first_colon r _ r' HL)
           (Bytes_of "DESCRIPTION") (Bytes_of "at 10:30")).
  - reflexivity.
  - not_in_list.
Defined.

Lemma unrecognized_line_witness :
  let rd := text ["BEGIN:VCALENDAR"; "BEGIN:VEVENT"; "UID:1"; "END:VEVENT"; "END:VCALENDAR"] in
  let rd' := text ["BEGIN:VCALENDAR"; "BEGIN:VEVENT"; "BEGIN:VALARM"; "UID:1";
                   "END:VEVENT"; "END:VCALENDAR"] in
  let ls1 := [("BEGIN", "VCALENDAR"); ("BEGIN", "VEVENT")] in
  let ls2 := [("UID", "1"); ("END", "VEVENT"); ("END", "VCALENDAR")] in
  reads (bufio.NewReader rd) (ls1 ++ ls2) (bufio.NewReader []) /\
  reads (bufio.NewReader rd') (ls1 ++ ("BEGIN", "VALARM") :: ls2) (bufio.NewReader []) /\
  recognized (state_after ls1) "BEGIN" = false /\
  Decode rd' = Decode rd.
Proof.
  intros rd rd' ls1 ls2.
  assert (H : reads (bufio.NewReader rd) (ls1 ++ ls2) (bufio.NewReader []))
    by read_lines.
  assert (H' : reads (bufio.NewReader rd') (ls1 ++ ("BEGIN", "VALARM") :: ls2)
                     (bufio.NewReader [])) by read_lines.
  assert (Hk : recognized (state_after ls1) "BEGIN" = false) by reflexivity.
  repeat (split; [assumption|]).
  exact (unrecognized_line_is_ignored rd rd' ls1 ls2 "BEGIN" "VALARM" _ H H' Hk).
Defined.


Lemma decodeLine_strips_leading_space_witness :
  let l := Bytes_of "BEGIN:VCALENDAR" in
  ~ In LF l /\ S (List.length l) < bufio.defaultBufSize /\
  decodeLine (bufio.NewReader (SP :: l ++ [LF]))
  = Returns ("BEGIN", "VCALENDAR", None, bufio.NewReader []).
Proof.
  intro l.
  assert (Hnl : ~ In LF l) by not_in_list.
  assert (Hlen : S (List.length l) < bufio.defaultBufSize)
    by (unfold bufio.defaultBufSize; simpl; lia).
  repeat (split; [assumption|]).
  unfold decodeLine, bufio.NewReader.
  rewrite (decodeLine_strips_leading_space bufio.defaultBufSize [] l [] Hnl Hlen).
  reflexivity.
Defined.

(* ================================================================= *)
(** * Further properties *)

(** ** Errors of the line reader in [Decode] *)

Lemma reader_eta (r : bufio.Reader) : r = bufio.mkReader (bufio.size r) (bufio.input r).
Proof. destruct r; reflexivity. Qed.

Lemma reads_NewReader_size rd ls r :
  reads (bufio.NewReader rd) ls r -> bufio.size r = bufio.defaultBufSize.
Proof. intro H. now rewrite (reads_size _ _ _ H). Qed.

Lemma decodeLine_from_blank n buf l rest :
  l = [] \/ l = [CR] -> List.length l < n ->
  decodeLine_from buf (bufio.mkReader n (l ++ LF :: rest))
  = Returns ("", "", Some (errors_New "unexpected blank line"), bufio.mkReader n rest).
Proof.
  intros Hl Hlen. rewrite decodeLine_from_eq. unfold decodeLine_body.
  rewrite ReadLine_line.
  - destruct Hl as [-> | ->]; reflexivity.
  - destruct Hl as [-> | ->]; simpl; [tauto|].
    intros [H|[]]. discriminate H.
  - assumption.
Qed.

(** X1.  An error of the line reader, at any place where [Decode] or
    [decodeEvent] reads a line, is returned by [Decode] as it is, with no
    calendar. *)
Theorem line_error_aborts_Decode rd ls r key value e r' :
  reads (bufio.NewReader rd) ls r ->
  ~ finished (state_after ls) ->
  decodeLine r = Returns (key, value, Some e, r') ->
  Decode rd = Returns (None, Some e).
Proof.
  intros Hreads Hst Hl. rewrite (Decode_reads _ _ _ Hreads).
  eapply run_error; eauto.
Qed.

(** X2.  A blank physical line (empty, or a lone carriage return) where
    [Decode] reads a line makes it return "unexpected blank line", a
    line-format error. *)
Theorem blank_line_aborts_Decode rd ls r rest :
  reads (bufio.NewReader rd) ls r ->
  ~ finished (state_after ls) ->
  bufio.input r = LF :: rest \/ bufio.input r = CR :: LF :: rest ->
  Decode rd = Returns (None, Some (errors_New "unexpected blank line")) /\
  kind_of (errors_New "unexpected blank line") = Some LineFormatError.
Proof.
  intros Hreads Hst Hin. split; [|reflexivity].
  rewrite (Decode_reads _ _ _ Hreads).
  pose proof (reads_NewReader_size _ _ _ Hreads) as Hsz.
  eapply run_error; [|exact Hst].
  unfold decodeLine. rewrite (reader_eta r), Hsz.
  destruct Hin as [-> | ->].
  - apply (decodeLine_from_blank bufio.defaultBufSize [] [] rest); [now left|].
    unfold bufio.defaultBufSize. simpl. lia.
  - apply (decodeLine_from_blank bufio.defaultBufSize [] [CR] rest); [now right|].
    unfold bufio.defaultBufSize. simpl. lia.
Qed.

(** X3.  A physical line of 4096 bytes or more before its newline, where
    [Decode] reads a line, makes it return "unexpected long line". *)
Theorem long_line_aborts_Decode rd ls r l rest :
  reads (bufio.NewReader rd) ls r ->
  ~ finished (state_after ls) ->
  bufio.input r = l ++ rest -> ~ In LF l ->
  List.length l = bufio.defaultBufSize ->
  Decode rd = Returns (None, Some (errors_New "unexpected long line")) /\
  kind_of (errors_New "unexpected long line") = Some LineFormatError.
Proof.
  intros Hreads Hst Hin Hnl Hlen. split; [|reflexivity].
  rewrite (Decode_reads _ _ _ Hreads).
  pose proof (reads_NewReader_size _ _ _ Hreads) as Hsz.
  destruct (decodeLine_from_long_line bufio.defaultBufSize [] l rest Hnl Hlen)
    as [r' Hlong].
  eapply run_error; [|exact Hst].
  unfold decodeLine. rewrite (reader_eta r), Hsz, Hin. exact Hlong.
Qed.


(** ** The envelope *)

(** X5.  The lines before the first [BEGIN] are skipped: decoding the
    input is decoding what is left after them. *)
Theorem leading_lines_are_skipped rd ls r :
  reads (bufio.NewReader rd) ls r ->
  before_BEGIN ls ->
  Decode rd = Decode (bufio.input r).
Proof.
  intros Hreads Hskip.
  rewrite (Decode_reads _ _ _ Hreads), (state_after_skipped _ Hskip).
  unfold Decode, bufio.NewReader. simpl.
  rewrite <- (reads_NewReader_size _ _ _ Hreads), <- reader_eta. reflexivity.
Qed.

(** X6.  Where the first [BEGIN] line read does not open a [VCALENDAR],
    [Decode] returns "didn't find BEGIN:VCALENDAR", a structural error,
    and no calendar. *)
Theorem first_BEGIN_must_be_VCALENDAR rd ls r value r' :
  reads (bufio.NewReader rd) ls r ->
  before_BEGIN ls ->
  decodeLine r = Returns ("BEGIN", value, None, r') ->
  value <> "VCALENDAR" ->
  Decode rd = Returns (None, Some (errors_New "didn't find BEGIN:VCALENDAR")) /\
  kind_of (errors_New "didn't find BEGIN:VCALENDAR") = Some StructuralError.
Proof.
  intros Hreads Hskip Hl Hv. split; [|reflexivity].
  eapply Decode_first_BEGIN_not_VCALENDAR; eauto.
Qed.


Lemma dstep_finished_panic st l msg :
  ~ finished st ->
  dstep st l = Finished (Panics msg) ->
  st = AtStart /\ l = ("END", "VCALENDAR").
Proof.
  destruct l as [k v]. destruct st as [|c|c e|res]; simpl; intros Hst H.
  - destruct (String.eqb k "BEGIN").
    + destruct (String.eqb v "VCALENDAR"); discriminate.
    + destruct (String.eqb_spec k "END") as [->|]; simpl in H; [|discriminate].
      destruct (String.eqb_spec v "VCALENDAR") as [->|]; [auto|discriminate].
  - destruct (String.eqb k "BEGIN").
    + destruct (String.eqb v "VEVENT"); discriminate.
    + destruct (String.eqb k "END" && String.eqb v "VCALENDAR")%bool; discriminate.
  - destruct (decodeEvent_switch e k v None) as [ev err|e' [er|]] eqn:Hsw;
      try discriminate.
    apply decodeEvent_switch_return in Hsw.
    destruct Hsw as [_ [(-> & -> & _)|(-> & -> & _)]]; discriminate.
  - exfalso. apply Hst. exact I.
Qed.

Lemma dstep_AtStart_inv st k v :
  dstep st (k, v) = AtStart ->
  st = AtStart /\ k <> "BEGIN" /\ ~ (k = "END" /\ v = "VCALENDAR").
Proof.
  destruct st as [|c|c e|res]; simpl; intro H.
  - destruct (String.eqb_spec k "BEGIN") as [->|Hb].
    + destruct (String.eqb v "VCALENDAR"); discriminate.
    + destruct (String.eqb_spec k "END") as [Ek|He]; simpl in H.
      * destruct (String.eqb_spec v "VCALENDAR") as [Ev|Hv]; [discriminate|].
        repeat split; auto. tauto.
      * repeat split; auto. tauto.
  - destruct (String.eqb k "BEGIN").
    + destruct (String.eqb v "VEVENT"); discriminate.
    + destruct (String.eqb k "END" && String.eqb v "VCALENDAR")%bool; discriminate.
  - destruct (decodeEvent_switch e k v None) as [[ev|] [er|]|e' [er|]]; discriminate.
  - discriminate.
Qed.

Lemma run_panics msg r : forall st,
  ~ finished st ->
  run st r = Panics msg ->
  st = AtStart /\
  exists ls r1 r', reads r ls r1 /\ before_BEGIN ls /\
                   decodeLine r1 = Returns ("END", "VCALENDAR", None, r').
Proof.
  induction r as [r IH] using reader_lt_ind. intros st Hst Hrun.
  destruct (decodeLine_returns r) as [[[[k v] err] r1] [Hres Hok]].
  simpl in Hok. destruct Hok as [_ Hok].
  destruct err as [er|].
  { rewrite (run_error st r k v er r1 Hres Hst) in Hrun. discriminate. }
  rewrite (run_step st r k v r1 Hres) in Hrun.
  destruct (dstep st (k, v)) as [|c|c e|res] eqn:Hd.
  4:{ simpl in Hrun. subst res.
      destruct (dstep_finished_panic _ _ _ Hst Hd) as [-> Hl].
      inversion Hl; subst. split; [reflexivity|].
      exists [], r, r1. split; [constructor|]. split; [|exact Hres].
      intros k' v' []. }
  all: match type of Hrun with
       | run ?st' _ = _ =>
           assert (Hnf : ~ finished st') by (simpl; tauto);
           destruct (IH r1 Hok st' Hnf Hrun) as (Hst' & ls & r2 & r' & Hr & Hs & Hl)
       end; try discriminate Hst'.
  apply dstep_AtStart_inv in Hd. destruct Hd as (-> & Hb & He).
  split; [reflexivity|].
  exists ((k, v) :: ls), r2, r'. split; [econstructor; eauto|]. split; [|exact Hl].
  intros k' v' [Heq|Hin]; [inversion Heq; subst; auto|apply Hs; assumption].
Qed.

(** X8.  [Decode] panics in one case only: [END:VCALENDAR] read before any
    [BEGIN] line. *)
Theorem Decode_panics_only_on_END_before_BEGIN rd msg :
  Decode rd = Panics msg ->
  exists ls r r', reads (bufio.NewReader rd) ls r /\ before_BEGIN ls /\
                  decodeLine r = Returns ("END", "VCALENDAR", None, r').
Proof.
  intro H.
  destruct (run_panics msg (bufio.NewReader rd) AtStart (fun F => F) H) as [_ Hex].
  exact Hex.
Qed.

(** X9.  [Decode] ends on every input, with an error and no calendar,
    with a calendar and no error, or in a panic; it never returns both a
    calendar and an error, nor neither. *)
Theorem Decode_returns_error_or_calendar rd :
  (exists e, Decode rd = Returns (None, Some e)) \/
  (exists cal, Decode rd = Returns (Some cal, None)) \/
  (exists msg, Decode rd = Panics msg).
Proof.
  destruct (Decode_outcome rd) as [e|cal|msg]; eauto.
Qed.

(** X10.  An [END] line for another block inside an event (the end of a
    nested [VALARM], say) makes [Decode] return "unexpected END value", a
    structural error, and no calendar. *)
Theorem END_of_other_block_in_event rd ls r c e value r' :
  reads (bufio.NewReader rd) ls r ->
  state_after ls = InEvent c e ->
  decodeLine r = Returns ("END", value, None, r') ->
  value <> "VEVENT" ->
  Decode rd = Returns (None, Some (errors_New "unexpected END value")) /\
  kind_of (errors_New "unexpected END value") = Some StructuralError.
Proof.
  intros Hreads Hst Hl Hv. split; [|reflexivity].
  rewrite (Decode_reads _ _ _ Hreads), Hst, (run_step _ _ _ _ _ Hl).
  simpl. unfold decodeEvent_switch. simpl.
  destruct (String.eqb_spec value "VEVENT"); [contradiction|reflexivity].
Qed.

Lemma dstep_InCalendar_ignored c key value :
  (key, value) <> ("BEGIN", "VEVENT") -> (key, value) <> ("END", "VCALENDAR") ->
  dstep (InCalendar c) (key, value) = InCalendar c.
Proof.
  intros Hb He. simpl.
  destruct (String.eqb_spec key "BEGIN") as [->|_].
  - destruct (String.eqb_spec value "VEVENT") as [->|_]; [congruence|reflexivity].
  - destruct (String.eqb_spec key "END") as [->|_]; [|reflexivity]. simpl.
    destruct (String.eqb_spec value "VCALENDAR") as [->|_]; [congruence|reflexivity].
Qed.

(** X11.  In the calendar, outside events, every line other than
    [BEGIN:VEVENT] and [END:VCALENDAR] is ignored, a second
    [BEGIN:VCALENDAR], the [BEGIN] and [END] of another block and a stray
    [END:VEVENT] included: the input with such a line decodes as the input
    without it. *)
Theorem calendar_level_line_is_ignored rd rd' ls1 ls2 key value c r :
  reads (bufio.NewReader rd) (ls1 ++ ls2) r ->
  reads (bufio.NewReader rd') (ls1 ++ (key, value) :: ls2) r ->
  state_after ls1 = InCalendar c ->
  (key, value) <> ("BEGIN", "VEVENT") -> (key, value) <> ("END", "VCALENDAR") ->
  Decode rd' = Decode rd.
Proof.
  intros H H' Hst Hb He.
  rewrite (Decode_reads _ _ _ H), (Decode_reads _ _ _ H').
  rewrite !state_after_app.
  change (fold_left dstep ((key, value) :: ls2) (state_after ls1))
    with (fold_left dstep ls2 (dstep (state_after ls1) (key, value))).
  rewrite Hst. now rewrite dstep_InCalendar_ignored.
Qed.

(** ** Physical lines *)

Lemma not_In_app_CR l : ~ In LF l -> ~ In LF (l ++ [CR]).
Proof.
  intros H Hin. apply in_app_or in Hin. destruct Hin as [Hin|[Hin|[]]]; auto.
  discriminate Hin.
Qed.

Lemma trimCR_app_CR l : trimCR (l ++ [CR]) = l.
Proof. rewrite trimCR_app by discriminate. simpl. apply app_nil_r. Qed.

(** A physical line ended by a carriage return and a newline is read as
    the line ended by the newline alone. *)
Lemma decodeLine_from_CRLF n buf l rest :
  ~ In LF l -> last l SP <> CR -> S (List.length l) < n ->
  decodeLine_from buf (bufio.mkReader n (l ++ CR :: LF :: rest))
  = decodeLine_from buf (bufio.mkReader n (l ++ LF :: rest)).
Proof.
  intros Hnl Hcr Hlen.
  destruct l as [|c l].
  - change ([] ++ CR :: LF :: rest) with ([CR] ++ LF :: rest).
    rewrite (decodeLine_from_blank n buf [CR] rest) by (auto; simpl in *; lia).
    rewrite (decodeLine_from_blank n buf [] rest) by (auto; simpl in *; lia).
    reflexivity.
  - replace ((c :: l) ++ CR :: LF :: rest) with (((c :: l) ++ [CR]) ++ LF :: rest)
      by (rewrite <- app_assoc; reflexivity).
    rewrite (decodeLine_from_line n buf ((c :: l) ++ [CR])).
    + rewrite (decodeLine_from_line n buf (c :: l)).
      * rewrite trimCR_app_CR, (trimCR_noCR (c :: l)) by assumption. reflexivity.
      * assumption.
      * simpl in *. lia.
      * rewrite trimCR_noCR by assumption. discriminate.
    + now apply not_In_app_CR.
    + rewrite length_app. simpl in *. lia.
    + rewrite trimCR_app_CR. discriminate.
Qed.

Lemma last_key_value (k v : bytes) c :
  last (k ++ COLON :: c :: v) SP = last (c :: v) SP.
Proof.
  induction k as [|a k IH]; [reflexivity|].
  simpl app. rewrite <- IH.
  destruct (k ++ COLON :: c :: v) eqn:E; [destruct k; discriminate|reflexivity].
Qed.

Lemma unfolded_pred n l : unfolded (n - 1) l -> unfolded n l.
Proof.
  destruct l as [k v]. unfold unfolded. intros (H1 & H2 & H3 & H4 & H5 & H6).
  repeat split; auto. lia.
Qed.

Lemma decodeLine_rendered_crlf n l rest :
  unfolded (n - 1) l -> not_continued rest ->
  decodeLine (bufio.mkReader n (render_crlf l ++ rest))
  = Returns (fst (as_line l), snd (as_line l), None, bufio.mkReader n rest).
Proof.
  intros Hl Hrest.
  rewrite <- (decodeLine_rendered n l rest) by auto using unfolded_pred.
  destruct l as [k v]. destruct Hl as (HkL & HkC & Hsp & HvL & Hcr & Hlen).
  unfold render_crlf, render, decodeLine.
  replace ((k ++ COLON :: v ++ [CR; LF]) ++ rest)
    with ((k ++ COLON :: v) ++ CR :: LF :: rest)
    by (rewrite <- !app_assoc; simpl; rewrite <- app_assoc; reflexivity).
  replace ((k ++ COLON :: v ++ [LF]) ++ rest)
    with ((k ++ COLON :: v) ++ LF :: rest)
    by (rewrite <- !app_assoc; simpl; rewrite <- app_assoc; reflexivity).
  apply decodeLine_from_CRLF.
  - apply not_In_key_value; auto using LF_not_COLON.
  - destruct v as [|c v].
    + rewrite last_last. discriminate.
    + rewrite last_key_value. assumption.
  - lia.
Qed.

Lemma not_continued_render_all_crlf n ls rest :
  Forall (unfolded n) ls -> not_continued rest ->
  not_continued (render_all_crlf ls ++ rest).
Proof.
  intros Hall Hrest. destruct ls as [|[k v] ls]; [exact Hrest|].
  inversion Hall as [|? ? Hl _]; subst. destruct Hl as (_ & _ & Hsp & _).
  unfold render_all_crlf. simpl. rewrite <- !app_assoc. simpl. rewrite <- !app_assoc.
  now apply not_continued_key_value.
Qed.

Lemma reads_rendered_crlf n ls : forall rest,
  Forall (unfolded (n - 1)) ls -> not_continued rest ->
  reads (bufio.mkReader n (render_all_crlf ls ++ rest)) (map as_line ls)
        (bufio.mkReader n rest).
Proof.
  induction ls as [|l ls IH]; intros rest Hall Hrest.
  - constructor.
  - inversion Hall as [|? ? Hl Hls]; subst.
    change (render_all_crlf (l :: ls) ++ rest)
      with ((render_crlf l ++ render_all_crlf ls) ++ rest).
    rewrite <- app_assoc.
    change (map as_line (l :: ls)) with (as_line l :: map as_line ls).
    destruct (as_line l) as [key value] eqn:El.
    apply reads_cons with (r' := bufio.mkReader n (render_all_crlf ls ++ rest)).
    + rewrite (decodeLine_rendered_crlf n l)
        by eauto using not_continued_render_all_crlf.
      rewrite El. reflexivity.
    + now apply IH.
Qed.

(** X12.  A text of unfolded lines with CRLF line ends decodes as the
    same text with LF line ends. *)
Theorem CRLF_text_decodes_as_LF_text ls rest :
  Forall (unfolded (bufio.defaultBufSize - 1)) ls -> not_continued rest ->
  Decode (render_all_crlf ls ++ rest) = Decode (render_all ls ++ rest).
Proof.
  intros Hall Hrest.
  rewrite (Decode_reads _ _ _ (reads_rendered_crlf bufio.defaultBufSize ls rest Hall Hrest)).
  rewrite Decode_rendered; [reflexivity| |assumption].
  eapply Forall_impl; [|exact Hall]. intros l. apply unfolded_pred.
Qed.

(** A last line that the input ends without a newline after. *)
Lemma decodeLine_from_last_line n buf l :
  l <> [] -> ~ In LF l -> List.length l < n ->
  decodeLine_from buf (bufio.mkReader n l)
  = Returns (decodeLine_split (buf ++ stripSP l) (bufio.mkReader n [])).
Proof.
  intros Hne Hnl Hlen.
  rewrite (decodeLine_from_pass buf _ l (bufio.mkReader n []));
    [reflexivity|now apply ReadLine_last|assumption].
Qed.

(** X13.  The newline after the last line is optional: a text of unfolded
    lines followed by a last line decodes the same with and without a
    newline at its very end. *)
Theorem final_newline_is_optional ls l :
  Forall (unfolded bufio.defaultBufSize) ls ->
  l <> [] -> not_continued l -> ~ In LF l -> last l SP <> CR ->
  List.length l < bufio.defaultBufSize ->
  Decode (render_all ls ++ l) = Decode (render_all ls ++ l ++ [LF]).
Proof.
  intros Hall Hne Hsp Hnl Hcr Hlen.
  rewrite !Decode_rendered; try assumption.
  - apply run_same_line. unfold decodeLine, bufio.NewReader.
    rewrite decodeLine_from_last_line by assumption.
    rewrite (decodeLine_from_line _ [] l []) by
      (try assumption; rewrite trimCR_noCR by assumption; assumption).
    rewrite trimCR_noCR by assumption. reflexivity.
  - intros c rest' H. destruct l as [|a l]; [congruence|].
    inversion H; subst. eapply Hsp; reflexivity.
Qed.

Lemma decodeLine_next_continuations n cs : forall buf rest,
  Forall (fun c => ~ In LF c /\ S (List.length c) < n) cs ->
  decodeLine_next buf (bufio.mkReader n (List.concat (map continuation cs) ++ rest))
  = decodeLine_next (buf ++ List.concat (map trimCR cs)) (bufio.mkReader n rest).
Proof.
  induction cs as [|c cs IH]; intros buf rest Hall.
  - simpl. now rewrite app_nil_r.
  - inversion Hall as [|? ? [Hnl Hlen] Hcs]; subst.
    change (List.concat (map continuation (c :: cs)) ++ rest)
      with ((continuation c ++ List.concat (map continuation cs)) ++ rest).
    unfold continuation at 1.
    replace (((SP :: c ++ [LF]) ++ List.concat (map continuation cs)) ++ rest)
      with (SP :: c ++ LF :: (List.concat (map continuation cs) ++ rest))
      by (simpl; rewrite <- !app_assoc; reflexivity).
    unfold decodeLine_next at 1. simpl bufio.input. cbv iota.
    change (Ascii.eqb SP SP) with true. cbv iota.
    rewrite decodeLine_from_space_line by assumption.
    rewrite IH by assumption.
    simpl map. simpl List.concat. now rewrite app_assoc.
Qed.

(** X14.  A logical line may be folded over any number of physical lines:
    a first line [l0] followed by the continuation lines [cs], each a
    space and then its bytes, is read as [l0] followed by the bytes of all
    of them, whatever the length of the whole. *)
Theorem folded_lines_are_joined n buf l0 cs rest :
  ~ In LF l0 -> List.length l0 < n -> trimCR l0 <> [] ->
  Forall (fun c => ~ In LF c /\ S (List.length c) < n) cs ->
  decodeLine_from buf
    (bufio.mkReader n (l0 ++ LF :: List.concat (map continuation cs) ++ rest))
  = decodeLine_next (buf ++ stripSP (trimCR l0) ++ List.concat (map trimCR cs))
                    (bufio.mkReader n rest).
Proof.
  intros Hnl Hlen Hb Hcs.
  rewrite decodeLine_from_line by assumption.
  rewrite decodeLine_next_continuations by assumption.
  now rewrite app_assoc.
Qed.

(** A line returned by [decodeLine] is the split of a finished logical
    line. *)
Lemma decodeLine_split_reader L r k v e r' :
  decodeLine_split L r = (k, v, e, r') -> r' = r.
Proof.
  unfold decodeLine_split.
  destruct (strings.SplitN_colon_2 _) as [|? [|? [|? ?]]]; intro H; inversion H; reflexivity.
Qed.

Lemma decodeLine_from_success r : forall buf key value r',
  decodeLine_from buf r = Returns (key, value, None, r') ->
  exists L, logical_line buf r L r' /\ decodeLine_split L r' = (key, value, None, r').
Proof.
  induction r as [r IH] using reader_lt_ind. intros buf key value r' H0.
  destruct (bufio.ReadLine r) as [[[b p] e] r1] eqn:E.
  pose proof H0 as H1. rewrite decodeLine_from_eq in H1.
  unfold decodeLine_body in H1. rewrite E in H1.
  destruct e as [e|]; [discriminate|]. destruct p; [discriminate|].
  destruct b as [|c0 b0]; [discriminate|]. clear H1.
  rewrite (decodeLine_from_pass buf r (c0 :: b0) r1 E) in H0 by discriminate.
  unfold decodeLine_next in H0.
  destruct (bufio.input r1) as [|c rest] eqn:Ein.
  - injection H0 as Hs.
    pose proof (decodeLine_split_reader _ _ _ _ _ _ Hs) as Hr. subst r'.
    exists (buf ++ stripSP (c0 :: b0)). split; [|exact Hs].
    apply logical_last; [exact E|discriminate|].
    intros c rest H. congruence.
  - destruct (Ascii.eqb_spec c SP) as [Hc|Hc].
    + subst c. apply IH in H0; [|eapply ReadLine_shrinks; eauto].
      destruct H0 as [L [HL Hs]]. exists L. split; [|exact Hs].
      eapply logical_more; [exact E|discriminate|exact Ein|exact HL].
    + injection H0 as Hs.
      pose proof (decodeLine_split_reader _ _ _ _ _ _ Hs) as Hr. subst r'.
      exists (buf ++ stripSP (c0 :: b0)). split; [|exact Hs].
      apply logical_last; [exact E|discriminate|].
      intros c' rest' H. rewrite Ein in H. inversion H; subst. assumption.
Qed.

Lemma cut_colon_inv s : forall k v,
  strings.cut_colon s = Some (k, v) ->
  s = (k ++ String COLON v)%string /\ ~ In COLON (Bytes_of k).
Proof.
  induction s as [|c s IH]; intros k v H; [discriminate|].
  rewrite cut_colon_String in H.
  destruct (Ascii.eqb_spec c COLON) as [->|Hc].
  - inversion H; subst. split; [reflexivity|]. simpl. tauto.
  - destruct (strings.cut_colon s) as [[k0 v0]|]; [|discriminate].
    inversion H; subst. destruct (IH k0 v eq_refl) as [-> Hk].
    split; [reflexivity|]. simpl. intros [Heq|Hin]; auto.
Qed.

(** X15.  A key returned by the line reader holds no colon, and the key,
    a colon and the value make up the finished logical line: nothing of
    the line is lost or changed. *)
Theorem decodeLine_key_and_value_make_the_line r key value r' :
  decodeLine r = Returns (key, value, None, r') ->
  exists L, logical_line [] r L r' /\
            String_of L = (key ++ String COLON value)%string /\
            ~ In COLON (Bytes_of key).
Proof.
  intro H. apply decodeLine_from_success in H. destruct H as [L [HL Hs]].
  exists L. split; [exact HL|].
  unfold decodeLine_split, strings.SplitN_colon_2 in Hs.
  destruct (strings.cut_colon (String_of L)) as [[k v]|] eqn:Ec.
  - inversion Hs; subst. now apply cut_colon_inv.
  - discriminate.
Qed.

(** X16.  Writing lines as [key:value], one to a physical line, and
    reading them with [decodeLine] gives the keys and values back, in
    order, and leaves the reader after them. *)
Theorem unfolded_text_reads_back n ls rest :
  Forall (unfolded n) ls -> not_continued rest ->
  reads (bufio.mkReader n (render_all ls ++ rest)) (map as_line ls)
        (bufio.mkReader n rest).
Proof. intros. now apply reads_rendered. Qed.

Lemma In_trimCR c l : In c (trimCR l) -> In c l.
Proof.
  unfold trimCR. destruct (rev l) as [|x r] eqn:E; [auto|].
  destruct (Ascii.eqb x CR); [|auto].
  intro H. apply in_rev. rewrite E. right. now apply in_rev.
Qed.

Lemma In_stripSP c l : In c (stripSP l) -> In c l.
Proof.
  unfold stripSP. destruct l as [|x l]; [auto|].
  destruct (Ascii.eqb x SP); [now right|auto].
Qed.

Lemma decodeLine_next_last buf n rest :
  not_continued rest ->
  decodeLine_next buf (bufio.mkReader n rest)
  = Returns (decodeLine_split buf (bufio.mkReader n rest)).
Proof.
  intro H. unfold decodeLine_next. simpl bufio.input.
  destruct rest as [|c rest']; [reflexivity|].
  destruct (Ascii.eqb_spec c SP) as [->|_]; [|reflexivity].
  exfalso. now apply (H SP rest').
Qed.

(** X26.  A logical line without a colon, where [Decode] reads a line,
    makes it return "bad line, couldn't find key:value", a line-format
    error. *)
Theorem line_without_colon_aborts_Decode rd ls r l rest :
  reads (bufio.NewReader rd) ls r ->
  ~ finished (state_after ls) ->
  bufio.input r = l ++ LF :: rest ->
  ~ In LF l -> ~ In COLON l -> trimCR l <> [] ->
  List.length l < bufio.defaultBufSize -> not_continued rest ->
  Decode rd = Returns (None, Some (errors_New "bad line, couldn't find key:value")) /\
  kind_of (errors_New "bad line, couldn't find key:value") = Some LineFormatError.
Proof.
  intros Hreads Hst Hin Hnl Hnc Hb Hlen Hrest. split; [|reflexivity].
  rewrite (Decode_reads _ _ _ Hreads).
  pose proof (reads_NewReader_size _ _ _ Hreads) as Hsz.
  eapply run_error; [|exact Hst].
  unfold decodeLine. rewrite (reader_eta r), Hsz, Hin.
  rewrite decodeLine_from_line by assumption.
  rewrite decodeLine_next_last by assumption.
  apply f_equal. apply decodeLine_split_none.
  intro H. apply Hnc. simpl in H. now apply In_trimCR, In_stripSP.
Qed.

(** ** Events *)

Lemma dstep_END_VEVENT c e :
  dstep (InEvent c e) ("END", "VEVENT") = InCalendar (mkCalendar (Events c ++ [e])).
Proof. reflexivity. Qed.



Section Fields.

Variable A : Type.
Variable field : Event -> A.
Variable name : string.
Hypothesis assign_other : forall e key value,
  key <> name -> field (assign e (key, value)) = field e.

Lemma fold_assign_keeps ls : forall e,
  (forall v, ~ In (name, v) ls) -> field (fold_left assign ls e) = field e.
Proof.
  induction ls as [|[k v] ls IH]; intros e H; simpl; [reflexivity|].
  rewrite IH by (intros v' Hin; apply (H v'); now right).
  apply assign_other. intros ->. apply (H v). now left.
Qed.

End Fields.

Ltac assign_other_tac :=
  intros e key value Hk; unfold assign, decodeEvent_switch;
  repeat match goal with
         | |- context [String.eqb ?a ?b] =>
             destruct (String.eqb_spec a b); [try contradiction|]; simpl
         | |- context [decodeTime ?v] => destruct (decodeTime v); simpl
         end; try reflexivity; subst; try discriminate.

Lemma assign_UID : forall e key value,
  key <> "UID" -> UID (assign e (key, value)) = UID e.
Proof. assign_other_tac. Qed.

Lemma assign_Summary : forall e key value,
  key <> "SUMMARY" -> Summary (assign e (key, value)) = Summary e.
Proof. assign_other_tac. Qed.

Lemma assign_Location : forall e key value,
  key <> "LOCATION" -> Location (assign e (key, value)) = Location e.
Proof. assign_other_tac. Qed.

Lemma assign_Description : forall e key value,
  key <> "DESCRIPTION" -> Description (assign e (key, value)) = Description e.
Proof. assign_other_tac. Qed.

Lemma assign_same e value :
  UID (assign e ("UID", value)) = value /\
  Summary (assign e ("SUMMARY", value)) = value /\
  Location (assign e ("LOCATION", value)) = value /\
  Description (assign e ("DESCRIPTION", value)) = value /\
  Start (assign e ("DTSTART", value)) = fst (decodeTime value) /\
  End_ (assign e ("DTEND", value)) = fst (decodeTime value).
Proof.
  unfold assign, decodeEvent_switch. simpl.
  destruct (decodeTime value). repeat split; reflexivity.
Qed.

(** X18.  Each field of a decoded event comes from the last property line
    with the field's key: the text fields hold its value as it is, the
    timestamps what [decodeTime] makes of it; earlier lines with the key
    and all lines with other keys do not matter. *)
Theorem event_field_is_last_line_with_its_key earlier key value later :
  (forall v, ~ In (key, v) later) ->
  let e := event_of (earlier ++ (key, value) :: later) in
  (key = "UID" -> UID e = value) /\
  (key = "SUMMARY" -> Summary e = value) /\
  (key = "LOCATION" -> Location e = value) /\
  (key = "DESCRIPTION" -> Description e = value) /\
  (key = "DTSTART" -> Start e = fst (decodeTime value)) /\
  (key = "DTEND" -> End_ e = fst (decodeTime value)).
Proof.
  intros Hlater e. unfold e, event_of. rewrite fold_left_app. simpl fold_left.
  set (e0 := fold_left assign earlier new_Event).
  destruct (assign_same e0 value) as (H1 & H2 & H3 & H4 & H5 & H6).
  repeat split; intros ->.
  - rewrite (fold_assign_keeps _ UID "UID" assign_UID) by assumption. exact H1.
  - rewrite (fold_assign_keeps _ Summary "SUMMARY" assign_Summary) by assumption. exact H2.
  - rewrite (fold_assign_keeps _ Location "LOCATION" assign_Location) by assumption. exact H3.
  - rewrite (fold_assign_keeps _ Description "DESCRIPTION" assign_Description)
      by assumption. exact H4.
  - rewrite (fold_assign_keeps _ Start "DTSTART" assign_Start) by assumption. exact H5.
  - rewrite (fold_assign_keeps _ End_ "DTEND" assign_End) by assumption. exact H6.
Qed.

(** X19.  A text field without a property line of its key is the empty
    string in the decoded event. *)
Theorem event_text_field_defaults_to_empty props key :
  (forall v, ~ In (key, v) props) ->
  (key = "UID" -> UID (event_of props) = "") /\
  (key = "SUMMARY" -> Summary (event_of props) = "") /\
  (key = "LOCATION" -> Location (event_of props) = "") /\
  (key = "DESCRIPTION" -> Description (event_of props) = "").
Proof.
  intros H. unfold event_of. repeat split; intros ->.
  - now rewrite (fold_assign_keeps _ UID "UID" assign_UID).
  - now rewrite (fold_assign_keeps _ Summary "SUMMARY" assign_Summary).
  - now rewrite (fold_assign_keeps _ Location "LOCATION" assign_Location).
  - now rewrite (fold_assign_keeps _ Description "DESCRIPTION" assign_Description).
Qed.

(** ** The ordering of events *)

Section Less.

Import time.
Local Open Scope Z_scope.

Ltac order_cases :=
  repeat match goal with
         | H : context [?x <? ?y] |- _ => destruct (Z.ltb_spec x y)
         | H : context [?x =? ?y] |- _ => destruct (Z.eqb_spec x y)
         | |- context [?x <? ?y] => destruct (Z.ltb_spec x y)
         | |- context [?x =? ?y] => destruct (Z.eqb_spec x y)
         end; simpl in *; try discriminate; try reflexivity; try lia.

(** X20.  [Less] is transitive, as [sort.Sort] asks of it. *)
Theorem Less_is_transitive a b c :
  eventList.Less a b = true -> eventList.Less b c = true ->
  eventList.Less a c = true.
Proof.
  unfold eventList.Less.
  destruct (IsZero (Start a)); [reflexivity|].
  destruct (IsZero (Start b)); [discriminate|].
  destruct (IsZero (Start c)); [discriminate|].
  unfold Before. intros H1 H2. order_cases.
Qed.

(** X21.  Two events neither of which is [Less] than the other start at
    the same instant, and neither has the zero start: [Less] leaves the
    order open among events of equal start only. *)
Theorem Less_neither_way_is_same_start a b :
  eventList.Less a b = false -> eventList.Less b a = false ->
  Start a = Start b /\ IsZero (Start a) = false.
Proof.
  unfold eventList.Less.
  destruct (IsZero (Start a)); [discriminate|].
  destruct (IsZero (Start b)); [discriminate|].
  unfold Before. destruct (Start a) as [s1 n1], (Start b) as [s2 n2]. simpl.
  intros H1 H2. split; [|reflexivity].
  assert (s1 = s2 /\ n1 = n2) as [-> ->] by order_cases. reflexivity.
Qed.

End Less.

(** ** Sorting through the methods of [eventList] *)

Lemma Less_at_Some l i j a b :
  nth_error l i = Some a -> nth_error l j = Some b ->
  eventList.Less_at l i j = Some (eventList.Less a b).
Proof.
  intros Hi Hj. unfold eventList.Less_at, eventList.Less. rewrite Hi, Hj.
  destruct (time.IsZero (Start a)); reflexivity.
Qed.

Lemma nth_error_middle (pre : list Event) x post :
  nth_error (pre ++ x :: post) (List.length pre) = Some x.
Proof. induction pre; simpl; auto. Qed.

Lemma store_middle pre x post y :
  eventList.store (pre ++ x :: post) (List.length pre) y = pre ++ y :: post.
Proof. induction pre as [|a pre IH]; simpl; [reflexivity|]. now rewrite IH. Qed.

Lemma Swap_adjacent pre y x post :
  eventList.Swap (pre ++ y :: x :: post) (S (List.length pre)) (List.length pre)
  = Some (pre ++ x :: y :: post).
Proof.
  unfold eventList.Swap. rewrite nth_error_middle.
  assert (E : pre ++ y :: x :: post = (pre ++ [y]) ++ x :: post)
    by (rewrite <- app_assoc; reflexivity).
  assert (L : S (List.length pre) = List.length (pre ++ [y]))
    by (rewrite length_app; simpl; lia).
  rewrite E at 1. rewrite L at 1. rewrite nth_error_middle.
  rewrite E, L, store_middle, <- app_assoc. simpl.
  now rewrite store_middle.
Qed.

Lemma insert_at_sink pre : forall x post,
  sort.insert_at (List.length pre) (pre ++ x :: post)
  = Some (rev (sort.sink x (rev pre)) ++ post).
Proof.
  induction pre as [|y pre IH] using rev_ind; intros x post; [reflexivity|].
  rewrite rev_app_distr. simpl rev. simpl app.
  rewrite length_app, Nat.add_comm. simpl plus.
  rewrite <- app_assoc. simpl app. simpl sort.insert_at.
  rewrite (Less_at_Some _ _ _ x y).
  - simpl sort.sink. destruct (eventList.Less x y).
    + rewrite Swap_adjacent, IH. simpl rev. rewrite <- app_assoc. reflexivity.
    + simpl rev. rewrite rev_involutive, <- !app_assoc. reflexivity.
  - assert (E : pre ++ y :: x :: post = (pre ++ [y]) ++ x :: post)
      by (rewrite <- app_assoc; reflexivity).
    assert (L : S (List.length pre) = List.length (pre ++ [y]))
      by (rewrite length_app; simpl; lia).
    rewrite E, L. apply nth_error_middle.
  - apply nth_error_middle.
Qed.

Lemma insert_at_sink_rev bs x post :
  sort.insert_at (List.length bs) (rev bs ++ x :: post)
  = Some (rev (sort.sink x bs) ++ post).
Proof.
  pose proof (insert_at_sink (rev bs) x post) as H.
  now rewrite length_rev, rev_involutive in H.
Qed.

Lemma sink_length x bs : List.length (sort.sink x bs) = S (List.length bs).
Proof.
  induction bs as [|y bs IH]; simpl; [reflexivity|].
  destruct (eventList.Less x y); simpl; auto.
Qed.

Lemma insertionSort_at_fold todo : forall bs,
  fold_left (fun d i => match d with None => None | Some l => sort.insert_at i l end)
            (seq (List.length bs) (List.length todo)) (Some (rev bs ++ todo))
  = Some (rev (fold_left (fun before x => sort.sink x before) todo bs)).
Proof.
  induction todo as [|x todo IH]; intros bs.
  - simpl. now rewrite app_nil_r.
  - simpl List.length. simpl seq. simpl fold_left.
    rewrite insert_at_sink_rev, <- (sink_length x bs). apply IH.
Qed.

(** X22.  The insertion sort of the sort package, run on the slice through
    [Less], [Swap] and [Len], never indexes outside the slice and leaves
    the events in the order of the sort on lists. *)
Theorem insertionSort_through_methods data :
  sort.insertionSort_at data (eventList.Len data) = Some (sort.insertionSort data).
Proof.
  unfold sort.insertionSort_at, sort.insertionSort, eventList.Len.
  destruct data as [|x todo]; [reflexivity|].
  replace (List.length (x :: todo) - 1) with (List.length todo) by (simpl; lia).
  apply (insertionSort_at_fold todo [x]).
Qed.

(** ** Written timestamps *)

Section Written.

Import time.
Local Open Scope Z_scope.

Lemma digit_char_digit d :
  0 <= d <= 9 -> is_digit (digit_char d) = true /\ digit_val (digit_char d) = d.
Proof.
  intro H.
  assert (C : d = 0 \/ d = 1 \/ d = 2 \/ d = 3 \/ d = 4 \/ d = 5 \/ d = 6
              \/ d = 7 \/ d = 8 \/ d = 9) by lia.
  repeat (destruct C as [->|C]); try subst d; split; reflexivity.
Qed.

Lemma two_digits_val n :
  0 <= n <= 99 ->
  is_digit (digit_char (n / 10)) = true /\ is_digit (digit_char (n mod 10)) = true /\
  digit_val (digit_char (n / 10)) * 10 + digit_val (digit_char (n mod 10)) = n.
Proof.
  intro H.
  assert (H1 : 0 <= n / 10 <= 9) by (Z.to_euclidean_division_equations; lia).
  assert (H2 : 0 <= n mod 10 <= 9) by (Z.to_euclidean_division_equations; lia).
  destruct (digit_char_digit _ H1) as [-> ->].
  destruct (digit_char_digit _ H2) as [-> ->].
  repeat split. Z.to_euclidean_division_equations; lia.
Qed.

Lemma four_digits_val n :
  0 <= n <= 9999 ->
  forallb is_digit (four_digits n) = true /\ fst (leadingInt 0 (four_digits n)) = n.
Proof.
  intro H. unfold four_digits.
  assert (H1 : 0 <= n / 1000 <= 9) by (Z.to_euclidean_division_equations; lia).
  assert (H2 : 0 <= n / 100 mod 10 <= 9) by (Z.to_euclidean_division_equations; lia).
  assert (H3 : 0 <= n / 10 mod 10 <= 9) by (Z.to_euclidean_division_equations; lia).
  assert (H4 : 0 <= n mod 10 <= 9) by (Z.to_euclidean_division_equations; lia).
  destruct (digit_char_digit _ H1) as [D1 V1].
  destruct (digit_char_digit _ H2) as [D2 V2].
  destruct (digit_char_digit _ H3) as [D3 V3].
  destruct (digit_char_digit _ H4) as [D4 V4].
  split.
  - simpl. now rewrite D1, D2, D3, D4.
  - rewrite leadingInt_4 by assumption. rewrite V1, V2, V3, V4.
    Z.to_euclidean_division_equations; lia.
Qed.

Lemma atoi_4 a b c d :
  is_digit a = true -> is_digit b = true -> is_digit c = true -> is_digit d = true ->
  atoi [a; b; c; d] = Some (fst (leadingInt 0 [a; b; c; d])).
Proof.
  intros Ha Hb Hc Hd. unfold atoi. rewrite (is_digit_not_sign a Ha).
  simpl. rewrite Ha, Hb, Hc, Hd. reflexivity.
Qed.

Lemma getnum_digits c0 c1 rest fixed :
  is_digit c0 = true -> is_digit c1 = true ->
  getnum (c0 :: c1 :: rest) fixed = Some (digit_val c0 * 10 + digit_val c1, rest).
Proof.
  intros H0 H1. unfold getnum, isDigit. cbn [nth_error]. now rewrite H0, H1.
Qed.

Lemma skip1_same c l : skip1 (c :: l) c = Some l.
Proof. unfold skip1. now rewrite Ascii.eqb_refl. Qed.

(** [Parse] on a text of the layout makes the range checks and nothing
    else. *)
Lemma Parse_digits y0 y1 y2 y3 m0 m1 d0 d1 h0 h1 n0 n1 s0 s1 :
  forallb is_digit [y0; y1; y2; y3; m0; m1; d0; d1; h0; h1; n0; n1; s0; s1] = true ->
  Parse_20060102T150405Z
    (y0 :: y1 :: y2 :: y3 :: m0 :: m1 :: d0 :: d1 :: "T"%char
     :: h0 :: h1 :: n0 :: n1 :: s0 :: s1 :: ["Z"%char])
  = checked (mkStamp (fst (leadingInt 0 [y0; y1; y2; y3]))
                     (digit_val m0 * 10 + digit_val m1)
                     (digit_val d0 * 10 + digit_val d1)
                     (digit_val h0 * 10 + digit_val h1)
                     (digit_val n0 * 10 + digit_val n1)
                     (digit_val s0 * 10 + digit_val s1)).
Proof.
  intro Hd. simpl in Hd.
  repeat (apply andb_true_iff in Hd; let H := fresh "D" in destruct Hd as [H Hd]).
  unfold Parse_20060102T150405Z, checked, instant.
  unfold isDigit at 1. cbn [List.length Nat.ltb Nat.leb nth_error firstn skipn].
  rewrite D. cbn [negb orb].
  rewrite atoi_4 by assumption.
  rewrite (getnum_digits m0 m1) by assumption. cbv beta iota.
  rewrite (getnum_digits d0 d1) by assumption. cbv beta iota.
  rewrite skip1_same.
  rewrite (getnum_digits h0 h1) by assumption. cbv beta iota.
  rewrite (getnum_digits n0 n1) by assumption. cbv beta iota.
  rewrite (getnum_digits s0 s1) by assumption. cbv beta iota.
  change (fractionalSecond ["Z"%char]) with (Some (0, ["Z"%char])). cbv beta iota.
  rewrite skip1_same. reflexivity.
Qed.

Lemma Parse_written t :
  writable t -> Parse_20060102T150405Z (Bytes_of (written t)) = checked t.
Proof.
  destruct t as [y m d h mi s]. unfold writable, written. simpl s_year.
  simpl s_month. simpl s_day. simpl s_hour. simpl s_min. simpl s_sec.
  intros (Hy & Hm & Hd & Hh & Hmi & Hs).
  unfold Bytes_of, String_of. rewrite list_ascii_of_string_of_list_ascii.
  destruct (four_digits_val y Hy) as [Dy Vy].
  destruct (two_digits_val m Hm) as (Dm0 & Dm1 & Vm).
  destruct (two_digits_val d Hd) as (Dd0 & Dd1 & Vd).
  destruct (two_digits_val h Hh) as (Dh0 & Dh1 & Vh).
  destruct (two_digits_val mi Hmi) as (Dn0 & Dn1 & Vn).
  destruct (two_digits_val s Hs) as (Ds0 & Ds1 & Vs).
  unfold four_digits, two_digits in *. cbn [app].
  rewrite Parse_digits.
  - now rewrite Vy, Vm, Vd, Vh, Vn, Vs.
  - simpl in Dy. simpl.
    rewrite Dm0, Dm1, Dd0, Dd1, Dh0, Dh1, Dn0, Dn1, Ds0, Ds1.
    repeat (apply andb_true_iff in Dy; destruct Dy as [-> Dy]). reflexivity.
Qed.

Ltac month_table :=
  repeat match goal with
         | |- context [daysBefore ?a] =>
             let v := eval compute in (daysBefore a) in
             progress change (daysBefore a) with v
         | H : context [daysBefore ?a] |- _ =>
             let v := eval compute in (daysBefore a) in
             progress change (daysBefore a) with v in H
         | |- context [?a =? 2] =>
             let v := eval compute in (a =? 2) in
             progress change (a =? 2) with v
         | H : context [?a =? 2] |- _ =>
             let v := eval compute in (a =? 2) in
             progress change (a =? 2) with v in H
         | |- context [3 <=? ?a] =>
             let v := eval compute in (3 <=? a) in
             progress change (3 <=? a) with v
         | H : context [3 <=? ?a] |- _ =>
             let v := eval compute in (3 <=? a) in
             progress change (3 <=? a) with v in H
         end;
  cbn [andb] in *.

Lemma daysIn_le_31 m y : 1 <= m <= 12 -> 28 <= daysIn m y <= 31.
Proof.
  intro H. unfold daysIn.
  assert (C : m = 1 \/ m = 2 \/ m = 3 \/ m = 4 \/ m = 5 \/ m = 6 \/ m = 7
              \/ m = 8 \/ m = 9 \/ m = 10 \/ m = 11 \/ m = 12) by lia.
  destruct (isLeap y);
    repeat (destruct C as [->|C]); try subst m; month_table; lia.
Qed.

Lemma valid_writable t : valid t -> writable t.
Proof.
  unfold valid, writable. intros (Hy & Hm & Hd & Hh & Hmi & Hs).
  pose proof (daysIn_le_31 (s_month t) (s_year t) Hm). lia.
Qed.

Lemma checked_valid t : valid t -> checked t = inl (instant t).
Proof.
  unfold valid, checked. intros (Hy & Hm & Hd & Hh & Hmi & Hs).
  repeat match goal with
         | |- context [?x <? ?y] => destruct (Z.ltb_spec x y); try lia
         | |- context [?x <=? ?y] => destruct (Z.leb_spec x y); try lia
         end.
  reflexivity.
Qed.

Lemma checked_not_valid t :
  0 <= s_year t <= 9999 -> ~ valid t -> exists msg, checked t = inr msg.
Proof.
  unfold valid, checked. intros Hy Hn.
  repeat match goal with
         | |- context [?x <? ?y] => destruct (Z.ltb_spec x y)
         | |- context [?x <=? ?y] => destruct (Z.leb_spec x y)
         end; cbn [orb]; try (eexists; reflexivity).
  exfalso. apply Hn. lia.
Qed.

Lemma decodeTime_written t :
  valid t -> decodeTime (written t) = (instant t, None).
Proof.
  intro H. unfold decodeTime, Parse.
  rewrite Parse_written by now apply valid_writable.
  now rewrite checked_valid.
Qed.

(** X23.  A timestamp of valid fields written in the layout
    YYYYMMDDThhmmssZ is accepted, and decodes to the instant the fields
    name. *)
Theorem decodeTime_accepts_written_timestamp t :
  valid t -> decodeTime (written t) = (instant t, None).
Proof. apply decodeTime_written. Qed.

(** X24.  A timestamp in the layout with a field out of its range (month
    13, day 31 of a month of 30, February 29 of a common year, hour 24,
    a minute or second 60) is refused with a [*time.ParseError], a
    value-format error. *)
Theorem decodeTime_refuses_out_of_range t :
  writable t -> ~ valid t ->
  exists msg,
    decodeTime (written t) = (time.zero, Some (time_ParseError (written t) msg)) /\
    kind_of (time_ParseError (written t) msg) = Some ValueFormatError.
Proof.
  intros Hw Hn. unfold decodeTime, Parse. rewrite Parse_written by assumption.
  destruct (checked_not_valid t (proj1 Hw) Hn) as [msg ->].
  exists msg. split; reflexivity.
Qed.

Lemma div_step y n :
  0 < n -> y / n = (y - 1) / n + (if y mod n =? 0 then 1 else 0).
Proof.
  intro Hn. destruct (Z.eqb_spec (y mod n) 0);
    Z.to_euclidean_division_equations; nia.
Qed.

Lemma mod_100_4 y : y mod 100 = 0 -> y mod 4 = 0.
Proof. intro H. Z.to_euclidean_division_equations. lia. Qed.

Lemma mod_400_100 y : y mod 400 = 0 -> y mod 100 = 0.
Proof. intro H. Z.to_euclidean_division_equations. lia. Qed.

Lemma daysSinceYear1_succ y :
  daysSinceYear1 (y + 1) = daysSinceYear1 y + 365 + (if isLeap y then 1 else 0).
Proof.
  unfold daysSinceYear1, isLeap. replace (y + 1 - 1) with y by lia.
  rewrite (div_step y 4), (div_step y 100), (div_step y 400) by lia.
  pose proof (mod_100_4 y). pose proof (mod_400_100 y).
  destruct (Z.eqb_spec (y mod 4) 0); destruct (Z.eqb_spec (y mod 100) 0);
    destruct (Z.eqb_spec (y mod 400) 0); cbn [andb orb negb]; lia.
Qed.

Lemma daysSinceYear1_later (k : nat) y :
  daysSinceYear1 y + 365 * Z.of_nat k <= daysSinceYear1 (y + Z.of_nat k).
Proof.
  induction k as [|k IH].
  - change (Z.of_nat 0) with 0. replace (y + 0) with y by lia. lia.
  - replace (y + Z.of_nat (S k)) with (y + Z.of_nat k + 1) by lia.
    rewrite daysSinceYear1_succ. destruct (isLeap (y + Z.of_nat k)); lia.
Qed.

Lemma daysSinceYear1_lt y y' :
  y < y' ->
  daysSinceYear1 y + 365 + (if isLeap y then 1 else 0) <= daysSinceYear1 y'.
Proof.
  intro H. rewrite <- daysSinceYear1_succ.
  pose proof (daysSinceYear1_later (Z.to_nat (y' - (y + 1))) (y + 1)) as L.
  rewrite Z2Nat.id in L by lia.
  replace (y + 1 + (y' - (y + 1))) with y' in L by lia. lia.
Qed.

Lemma dayOfYear_range y m d :
  1 <= m <= 12 -> 1 <= d <= daysIn m y ->
  0 <= dayOfYear y m d < 365 + (if isLeap y then 1 else 0).
Proof.
  intros Hm Hd. unfold dayOfYear, daysIn in *.
  assert (C : m = 1 \/ m = 2 \/ m = 3 \/ m = 4 \/ m = 5 \/ m = 6 \/ m = 7
              \/ m = 8 \/ m = 9 \/ m = 10 \/ m = 11 \/ m = 12) by lia.
  destruct (isLeap y);
    repeat (destruct C as [->|C]); try subst m; month_table; lia.
Qed.

Lemma dayOfYear_lt y m1 d1 m2 d2 :
  1 <= m1 -> m1 < m2 -> m2 <= 12 -> 1 <= d1 <= daysIn m1 y -> 1 <= d2 ->
  dayOfYear y m1 d1 < dayOfYear y m2 d2.
Proof.
  intros H1 H12 H2 Hd1 Hd2. unfold dayOfYear, daysIn in *.
  assert (C : m1 = 1 \/ m1 = 2 \/ m1 = 3 \/ m1 = 4 \/ m1 = 5 \/ m1 = 6 \/ m1 = 7
              \/ m1 = 8 \/ m1 = 9 \/ m1 = 10 \/ m1 = 11) by lia.
  assert (C' : m2 = 2 \/ m2 = 3 \/ m2 = 4 \/ m2 = 5 \/ m2 = 6 \/ m2 = 7
               \/ m2 = 8 \/ m2 = 9 \/ m2 = 10 \/ m2 = 11 \/ m2 = 12) by lia.
  destruct (isLeap y);
    repeat (destruct C as [->|C]); try subst m1;
    repeat (destruct C' as [->|C']); try subst m2;
    try lia; month_table; lia.
Qed.

Lemma instant_sec t :
  valid t ->
  instant t = mkTime ((daysSinceYear1 (s_year t)
                       + dayOfYear (s_year t) (s_month t) (s_day t)) * 86400
                      + s_hour t * 3600 + s_min t * 60 + s_sec t) 0.
Proof.
  unfold valid, instant. intros (Hy & Hm & Hd & Hh & Hmi & Hs).
  rewrite Date_in_range by (try assumption; simpl; lia).
  unfold dayOfYear. f_equal. lia.
Qed.

Lemma instant_lt a b :
  valid a -> valid b -> stamp_ltb a b = true ->
  sec (instant a) < sec (instant b) /\ nsec (instant a) = nsec (instant b).
Proof.
  intros Ha Hb Hlt. rewrite (instant_sec a Ha), (instant_sec b Hb). simpl sec.
  simpl nsec. split; [|reflexivity].
  destruct Ha as (Hya & Hma & Hda & Hha & Hmia & Hsa).
  destruct Hb as (Hyb & Hmb & Hdb & Hhb & Hmib & Hsb).
  pose proof (dayOfYear_range _ _ _ Hma Hda) as Ra.
  pose proof (dayOfYear_range _ _ _ Hmb Hdb) as Rb.
  unfold stamp_ltb in Hlt.
  destruct (Z.ltb_spec (s_year a) (s_year b)) as [Hy|Hy].
  { pose proof (daysSinceYear1_lt _ _ Hy). lia. }
  destruct (Z.eqb_spec (s_year a) (s_year b)) as [Ey|Ey]; [|discriminate Hlt].
  simpl in Hlt. rewrite Ey in *.
  destruct (Z.ltb_spec (s_month a) (s_month b)) as [Hm|Hm].
  { pose proof (dayOfYear_lt (s_year b) (s_month a) (s_day a) (s_month b) (s_day b)).
    lia. }
  destruct (Z.eqb_spec (s_month a) (s_month b)) as [Em|Em]; [|discriminate Hlt].
  simpl in Hlt. rewrite Em in *. unfold dayOfYear in *.
  repeat match type of Hlt with
         | context [?x <? ?y] => destruct (Z.ltb_spec x y)
         | context [?x =? ?y] => destruct (Z.eqb_spec x y)
         end; simpl in Hlt; try discriminate Hlt; lia.
Qed.

Lemma stamp_ltb_total a b :
  stamp_ltb a b = false -> a = b \/ stamp_ltb b a = true.
Proof.
  destruct a as [y m d h mi s], b as [y' m' d' h' mi' s']. unfold stamp_ltb. simpl.
  intro H.
  destruct (Z.lt_trichotomy y y') as [L|[E|L]].
  { apply Z.ltb_lt in L. rewrite L in H. discriminate H. }
  2:{ apply Z.ltb_lt in L. rewrite L. now right. }
  subst y'. rewrite Z.ltb_irrefl, Z.eqb_refl in H |- *. simpl in H |- *.
  destruct (Z.lt_trichotomy m m') as [L|[E|L]].
  { apply Z.ltb_lt in L. rewrite L in H. discriminate H. }
  2:{ apply Z.ltb_lt in L. rewrite L. now right. }
  subst m'. rewrite Z.ltb_irrefl, Z.eqb_refl in H |- *. simpl in H |- *.
  destruct (Z.lt_trichotomy d d') as [L|[E|L]].
  { apply Z.ltb_lt in L. rewrite L in H. discriminate H. }
  2:{ apply Z.ltb_lt in L. rewrite L. now right. }
  subst d'. rewrite Z.ltb_irrefl, Z.eqb_refl in H |- *. simpl in H |- *.
  destruct (Z.lt_trichotomy h h') as [L|[E|L]].
  { apply Z.ltb_lt in L. rewrite L in H. discriminate H. }
  2:{ apply Z.ltb_lt in L. rewrite L. now right. }
  subst h'. rewrite Z.ltb_irrefl, Z.eqb_refl in H |- *. simpl in H |- *.
  destruct (Z.lt_trichotomy mi mi') as [L|[E|L]].
  { apply Z.ltb_lt in L. rewrite L in H. discriminate H. }
  2:{ apply Z.ltb_lt in L. rewrite L. now right. }
  subst mi'. rewrite Z.ltb_irrefl, Z.eqb_refl in H |- *. simpl in H |- *.
  destruct (Z.lt_trichotomy s s') as [L|[E|L]].
  { apply Z.ltb_lt in L. rewrite L in H. discriminate H. }
  2:{ apply Z.ltb_lt in L. rewrite L. now right. }
  subst s'. now left.
Qed.

(** X25.  Decoded timestamps are ordered as their fields are in the
    calendar: of two valid timestamps the first decodes to a time
    [Before] the second's exactly when it is the earlier, compared from
    the year down to the second. *)
Theorem decodeTime_keeps_calendar_order a b :
  valid a -> valid b ->
  Before (fst (decodeTime (written a))) (fst (decodeTime (written b)))
  = stamp_ltb a b.
Proof.
  intros Ha Hb. rewrite !decodeTime_written by assumption. simpl fst.
  destruct (stamp_ltb a b) eqn:E.
  - destruct (instant_lt a b Ha Hb E) as [Hs _]. unfold Before.
    apply Z.ltb_lt in Hs. now rewrite Hs.
  - destruct (stamp_ltb_total a b E) as [->|E'].
    + unfold Before. now rewrite !Z.ltb_irrefl, andb_false_r.
    + destruct (instant_lt b a Hb Ha E') as [Hs _]. unfold Before.
      destruct (Z.ltb_spec (sec (instant a)) (sec (instant b))); [lia|].
      destruct (Z.eqb_spec (sec (instant a)) (sec (instant b))); [lia|reflexivity].
Qed.

End Written.

(* ================================================================= *)
(** * Instances of the further properties *)

Ltac closed_lt := apply Nat.ltb_lt; vm_compute; reflexivity.

Ltac unfolded_lines :=
  repeat first [apply Forall_nil | apply Forall_cons];
  unfold unfolded;
  repeat match goal with
         | |- _ /\ _ => split
         | |- ~ In _ _ => not_in_list
         | |- _ <> _ => discriminate
         | |- _ = _ => reflexivity
         | |- _ < _ => closed_lt
         end.

Ltac closed_order :=
  repeat split; vm_compute;
  first [reflexivity | let H := fresh in intro H; discriminate H].

Ltac no_space_first :=
  let c := fresh in let rest := fresh in let H := fresh in
  intros c rest H; inversion H; discriminate.

Lemma line_error_aborts_Decode_witness :
  let rd := text ["BEGIN:VCALENDAR"; "GARBAGE"] in
  let ls := [("BEGIN", "VCALENDAR")] in
  let r := bufio.NewReader (text ["GARBAGE"]) in
  let e := errors_New "bad line, couldn't find key:value" in
  reads (bufio.NewReader rd) ls r /\
  ~ finished (state_after ls) /\
  decodeLine r = Returns ("", "", Some e, bufio.NewReader []) /\
  Decode rd = Returns (None, Some e).
Proof.
  intros rd ls r e.
  assert (Hreads : reads (bufio.NewReader rd) ls r) by read_lines.
  assert (Hst : ~ finished (state_after ls)) by (simpl; tauto).
  assert (Hl : decodeLine r = Returns ("", "", Some e, bufio.NewReader []))
    by (vm_compute; reflexivity).
  repeat (split; [assumption|]).
  exact (line_error_aborts_Decode rd ls r "" "" e _ Hreads Hst Hl).
Defined.

Lemma blank_line_aborts_Decode_witness :
  let rd := text ["BEGIN:VCALENDAR"; ""; "END:VCALENDAR"] in
  let ls := [("BEGIN", "VCALENDAR")] in
  let rest := text ["END:VCALENDAR"] in
  let r := bufio.NewReader (LF :: rest) in
  reads (bufio.NewReader rd) ls r /\
  ~ finished (state_after ls) /\
  Decode rd = Returns (None, Some (errors_New "unexpected blank line")).
Proof.
  intros rd ls rest r.
  assert (Hreads : reads (bufio.NewReader rd) ls r) by read_lines.
  assert (Hst : ~ finished (state_after ls)) by (simpl; tauto).
  repeat (split; [assumption|]).
  exact (proj1 (blank_line_aborts_Decode rd ls r rest Hreads Hst (or_introl eq_refl))).
Defined.

Lemma long_line_aborts_Decode_witness :
  let l := repeat "a"%char bufio.defaultBufSize in
  let rd := text ["BEGIN:VCALENDAR"] ++ l ++ [LF] in
  let ls := [("BEGIN", "VCALENDAR")] in
  let r := bufio.NewReader (l ++ [LF]) in
  reads (bufio.NewReader rd) ls r /\
  ~ finished (state_after ls) /\
  ~ In LF l /\ List.length l = bufio.defaultBufSize /\
  Decode rd = Returns (None, Some (errors_New "unexpected long line")).
Proof.
  intros l rd ls r.
  assert (Hreads : reads (bufio.NewReader rd) ls r).
  { apply (reads_cons _ "BEGIN" "VCALENDAR" r); [vm_compute; reflexivity|].
    apply reads_nil. }
  assert (Hst : ~ finished (state_after ls)) by (simpl; tauto).
  assert (Hnl : ~ In LF l).
  { intro H. apply repeat_spec in H. discriminate H. }
  assert (Hlen : List.length l = bufio.defaultBufSize) by apply repeat_length.
  repeat (split; [assumption|]).
  exact (proj1 (long_line_aborts_Decode rd ls r l [LF] Hreads Hst eq_refl Hnl Hlen)).
Defined.


Lemma leading_lines_are_skipped_witness :
  let rd := text ["X-JUNK:1"; "BEGIN:VCALENDAR"; "END:VCALENDAR"] in
  let ls := [("X-JUNK", "1")] in
  let r := bufio.NewReader (text ["BEGIN:VCALENDAR"; "END:VCALENDAR"]) in
  reads (bufio.NewReader rd) ls r /\
  before_BEGIN ls /\
  Decode rd = Decode (text ["BEGIN:VCALENDAR"; "END:VCALENDAR"]).
Proof.
  intros rd ls r.
  assert (Hreads : reads (bufio.NewReader rd) ls r) by read_lines.
  assert (Hskip : before_BEGIN ls).
  { intros k v [H|[]]. inversion H. split; [discriminate|].
    intros [Hk _]. discriminate Hk. }
  repeat (split; [assumption|]).
  exact (leading_lines_are_skipped rd ls r Hreads Hskip).
Defined.

Lemma first_BEGIN_must_be_VCALENDAR_witness :
  let rd := text ["X-JUNK:1"; "BEGIN:VEVENT"; "END:VEVENT"] in
  let ls := [("X-JUNK", "1")] in
  let r := bufio.NewReader (text ["BEGIN:VEVENT"; "END:VEVENT"]) in
  let r' := bufio.NewReader (text ["END:VEVENT"]) in
  reads (bufio.NewReader rd) ls r /\
  before_BEGIN ls /\
  decodeLine r = Returns ("BEGIN", "VEVENT", None, r') /\
  "VEVENT" <> "VCALENDAR" /\
  Decode rd = Returns (None, Some (errors_New "didn't find BEGIN:VCALENDAR")).
Proof.
  intros rd ls r r'.
  assert (Hreads : reads (bufio.NewReader rd) ls r) by read_lines.
  assert (Hskip : before_BEGIN ls).
  { intros k v [H|[]]. inversion H. split; [discriminate|].
    intros [Hk _]. discriminate Hk. }
  assert (Hl : decodeLine r = Returns ("BEGIN", "VEVENT", None, r'))
    by (vm_compute; reflexivity).
  assert (Hv : "VEVENT" <> "VCALENDAR") by discriminate.
  repeat (split; [assumption|]).
  exact (proj1 (first_BEGIN_must_be_VCALENDAR rd ls r "VEVENT" r' Hreads Hskip Hl Hv)).
Defined.


Lemma Decode_panics_only_on_END_before_BEGIN_witness :
  let rd := text ["VERSION:2.0"; "END:VCALENDAR"] in
  let msg := "invalid memory address or nil pointer dereference" in
  Decode rd = Panics msg /\
  exists ls r r', reads (bufio.NewReader rd) ls r /\ before_BEGIN ls /\
                  decodeLine r = Returns ("END", "VCALENDAR", None, r').
Proof.
  intros rd msg.
  assert (H : Decode rd = Panics msg) by (vm_compute; reflexivity).
  split; [assumption|].
  exact (Decode_panics_only_on_END_before_BEGIN rd msg H).
Defined.

Lemma END_of_other_block_in_event_witness :
  let rd := text ["BEGIN:VCALENDAR"; "BEGIN:VEVENT"; "UID:1"; "BEGIN:VALARM";
                  "END:VALARM"; "END:VEVENT"; "END:VCALENDAR"] in
  let ls := [("BEGIN", "VCALENDAR"); ("BEGIN", "VEVENT"); ("UID", "1");
             ("BEGIN", "VALARM")] in
  let r := bufio.NewReader (text ["END:VALARM"; "END:VEVENT"; "END:VCALENDAR"]) in
  let r' := bufio.NewReader (text ["END:VEVENT"; "END:VCALENDAR"]) in
  let e := mkEvent "1" time.zero time.zero "" "" "" in
  reads (bufio.NewReader rd) ls r /\
  state_after ls = InEvent new_Calendar e /\
  decodeLine r = Returns ("END", "VALARM", None, r') /\
  "VALARM" <> "VEVENT" /\
  Decode rd = Returns (None, Some (errors_New "unexpected END value")).
Proof.
  intros rd ls r r' e.
  assert (Hreads : reads (bufio.NewReader rd) ls r) by read_lines.
  assert (Hst : state_after ls = InEvent new_Calendar e) by reflexivity.
  assert (Hl : decodeLine r = Returns ("END", "VALARM", None, r'))
    by (vm_compute; reflexivity).
  assert (Hv : "VALARM" <> "VEVENT") by discriminate.
  repeat (split; [assumption|]).
  exact (proj1 (END_of_other_block_in_event rd ls r new_Calendar e "VALARM" r'
                  Hreads Hst Hl Hv)).
Defined.

Lemma calendar_level_line_is_ignored_witness :
  let rd := text ["BEGIN:VCALENDAR"; "END:VCALENDAR"] in
  let rd' := text ["BEGIN:VCALENDAR"; "END:VEVENT"; "END:VCALENDAR"] in
  let ls1 := [("BEGIN", "VCALENDAR")] in
  let ls2 := [("END", "VCALENDAR")] in
  reads (bufio.NewReader rd) (ls1 ++ ls2) (bufio.NewReader []) /\
  reads (bufio.NewReader rd') (ls1 ++ ("END", "VEVENT") :: ls2) (bufio.NewReader []) /\
  state_after ls1 = InCalendar new_Calendar /\
  ("END", "VEVENT") <> ("BEGIN", "VEVENT") /\
  ("END", "VEVENT") <> ("END", "VCALENDAR") /\
  Decode rd' = Decode rd.
Proof.
  intros rd rd' ls1 ls2.
  assert (H : reads (bufio.NewReader rd) (ls1 ++ ls2) (bufio.NewReader []))
    by read_lines.
  assert (H' : reads (bufio.NewReader rd') (ls1 ++ ("END", "VEVENT") :: ls2)
                     (bufio.NewReader [])) by read_lines.
  assert (Hst : state_after ls1 = InCalendar new_Calendar) by reflexivity.
  assert (Hb : ("END", "VEVENT") <> ("BEGIN", "VEVENT")) by discriminate.
  assert (He : ("END", "VEVENT") <> ("END", "VCALENDAR")) by discriminate.
  repeat (split; [assumption|]).
  exact (calendar_level_line_is_ignored rd rd' ls1 ls2 "END" "VEVENT" new_Calendar _
           H H' Hst Hb He).
Defined.

Lemma CRLF_text_witness :
  let ls := [(Bytes_of "BEGIN", Bytes_of "VCALENDAR");
             (Bytes_of "END", Bytes_of "VCALENDAR")] in
  Forall (unfolded (bufio.defaultBufSize - 1)) ls /\
  not_continued [] /\
  Decode (render_all_crlf ls ++ []) = Decode (render_all ls ++ []).
Proof.
  intros ls.
  assert (Hall : Forall (unfolded (bufio.defaultBufSize - 1)) ls) by unfolded_lines.
  assert (Hrest : not_continued []) by no_space_first.
  repeat (split; [assumption|]).
  exact (CRLF_text_decodes_as_LF_text ls [] Hall Hrest).
Defined.

Lemma final_newline_witness :
  let ls := [(Bytes_of "BEGIN", Bytes_of "VCALENDAR")] in
  let l := Bytes_of "END:VCALENDAR" in
  Forall (unfolded bufio.defaultBufSize) ls /\
  l <> [] /\ not_continued l /\ ~ In LF l /\ last l SP <> CR /\
  List.length l < bufio.defaultBufSize /\
  Decode (render_all ls ++ l) = Decode (render_all ls ++ l ++ [LF]).
Proof.
  intros ls l.
  assert (Hall : Forall (unfolded bufio.defaultBufSize) ls) by unfolded_lines.
  assert (Hne : l <> []) by discriminate.
  assert (Hsp : not_continued l) by no_space_first.
  assert (Hnl : ~ In LF l) by not_in_list.
  assert (Hcr : last l SP <> CR) by discriminate.
  assert (Hlen : List.length l < bufio.defaultBufSize)
    by closed_lt.
  repeat (split; [assumption|]).
  exact (final_newline_is_optional ls l Hall Hne Hsp Hnl Hcr Hlen).
Defined.

Lemma folded_lines_witness :
  let n := bufio.defaultBufSize in
  let l0 := Bytes_of "DESCRIPTION:one" in
  let cs := [Bytes_of ", two"; Bytes_of ", three"] in
  ~ In LF l0 /\ List.length l0 < n /\ trimCR l0 <> [] /\
  Forall (fun c => ~ In LF c /\ S (List.length c) < n) cs /\
  decodeLine (bufio.mkReader n (text ["DESCRIPTION:one"; " , two"; " , three"]))
  = Returns ("DESCRIPTION", "one, two, three", None, bufio.mkReader n []).
Proof.
  intros n l0 cs.
  assert (Hnl : ~ In LF l0) by not_in_list.
  assert (Hlen : List.length l0 < n) by closed_lt.
  assert (Hb : trimCR l0 <> []) by discriminate.
  assert (Hcs : Forall (fun c => ~ In LF c /\ S (List.length c) < n) cs).
  { repeat first [apply Forall_nil | apply Forall_cons]; split;
      first [not_in_list | closed_lt]. }
  repeat (split; [assumption|]).
  exact (eq_trans (folded_lines_are_joined n [] l0 cs [] Hnl Hlen Hb Hcs) eq_refl).
Defined.

Lemma decodeLine_key_and_value_witness :
  let r := bufio.NewReader (text ["SUMMARY:a:b"]) in
  decodeLine r = Returns ("SUMMARY", "a:b", None, bufio.NewReader []) /\
  exists L, logical_line [] r L (bufio.NewReader []) /\
            String_of L = ("SUMMARY" ++ String COLON "a:b")%string /\
            ~ In COLON (Bytes_of "SUMMARY").
Proof.
  intros r.
  assert (H : decodeLine r = Returns ("SUMMARY", "a:b", None, bufio.NewReader []))
    by (vm_compute; reflexivity).
  split; [assumption|].
  exact (decodeLine_key_and_value_make_the_line r "SUMMARY" "a:b" _ H).
Defined.

Lemma unfolded_text_reads_back_witness :
  let n := bufio.defaultBufSize in
  let ls := [(Bytes_of "UID", Bytes_of "1"); (Bytes_of "SUMMARY", Bytes_of "a: b")] in
  Forall (unfolded n) ls /\ not_continued [] /\
  reads (bufio.mkReader n (render_all ls ++ []))
        [("UID", "1"); ("SUMMARY", "a: b")] (bufio.mkReader n []).
Proof.
  intros n ls.
  assert (Hall : Forall (unfolded n) ls) by (unfold n; unfolded_lines).
  assert (Hrest : not_continued []) by no_space_first.
  repeat (split; [assumption|]).
  exact (unfolded_text_reads_back n ls [] Hall Hrest).
Defined.


Lemma event_field_is_last_line_witness :
  let earlier := [("SUMMARY", "first")] in
  let later := [("UID", "1")] in
  (forall v, ~ In ("SUMMARY", v) later) /\
  Summary (event_of (earlier ++ ("SUMMARY", "second") :: later)) = "second".
Proof.
  intros earlier later.
  assert (H : forall v, ~ In ("SUMMARY", v) later).
  { intros v [E|[]]. discriminate E. }
  split; [assumption|].
  exact (proj1 (proj2 (event_field_is_last_line_with_its_key
                         earlier "SUMMARY" "second" later H)) eq_refl).
Defined.

Lemma event_text_field_defaults_witness :
  let props := [("UID", "1"); ("DTSTART", "20110601T100000Z")] in
  (forall v, ~ In ("SUMMARY", v) props) /\
  Summary (event_of props) = "".
Proof.
  intros props.
  assert (H : forall v, ~ In ("SUMMARY", v) props).
  { intros v [E|[E|[]]]; discriminate E. }
  split; [assumption|].
  exact (proj1 (proj2 (event_text_field_defaults_to_empty props "SUMMARY" H)) eq_refl).
Defined.

Lemma Less_is_transitive_witness :
  let a := mkEvent "a" (time.Date 2011 5 1 10 0 0 0) time.zero "" "" "" in
  let b := mkEvent "b" (time.Date 2011 6 1 10 0 0 0) time.zero "" "" "" in
  let c := mkEvent "c" (time.Date 2011 7 1 10 0 0 0) time.zero "" "" "" in
  eventList.Less a b = true /\ eventList.Less b c = true /\
  eventList.Less a c = true.
Proof.
  intros a b c.
  assert (H1 : eventList.Less a b = true) by reflexivity.
  assert (H2 : eventList.Less b c = true) by reflexivity.
  repeat (split; [assumption|]).
  exact (Less_is_transitive a b c H1 H2).
Defined.

Lemma Less_neither_way_witness :
  let a := mkEvent "a" (time.Date 2011 5 1 10 0 0 0) time.zero "" "" "" in
  let b := mkEvent "b" (time.Date 2011 5 1 10 0 0 0) time.zero "" "" "" in
  eventList.Less a b = false /\ eventList.Less b a = false /\
  Start a = Start b /\ time.IsZero (Start a) = false.
Proof.
  intros a b.
  assert (H1 : eventList.Less a b = false) by reflexivity.
  assert (H2 : eventList.Less b a = false) by reflexivity.
  repeat (split; [assumption|]).
  exact (Less_neither_way_is_same_start a b H1 H2).
Defined.

Lemma decodeTime_accepts_witness :
  let t := mkStamp 2012 2 29 23 59 59 in
  valid t /\ written t = "20120229T235959Z" /\
  decodeTime "20120229T235959Z" = (instant t, None).
Proof.
  intros t.
  assert (Hv : valid t) by closed_order.
  assert (Hw : written t = "20120229T235959Z") by reflexivity.
  repeat (split; [assumption|]).
  rewrite <- Hw. exact (decodeTime_accepts_written_timestamp t Hv).
Defined.

Lemma decodeTime_refuses_witness :
  let t := mkStamp 2011 2 29 10 0 0 in
  writable t /\ ~ valid t /\ written t = "20110229T100000Z" /\
  exists msg,
    decodeTime (written t) = (time.zero, Some (time_ParseError (written t) msg)).
Proof.
  intros t.
  assert (Hw : writable t) by closed_order.
  assert (Hn : ~ valid t).
  { intros (_ & _ & [_ Hd] & _). vm_compute in Hd. apply Hd. reflexivity. }
  assert (Ht : written t = "20110229T100000Z") by reflexivity.
  repeat (split; [assumption|]).
  destruct (decodeTime_refuses_out_of_range t Hw Hn) as [msg [H _]].
  exists msg. exact H.
Defined.

Lemma decodeTime_keeps_calendar_order_witness :
  let a := mkStamp 2011 12 31 23 59 59 in
  let b := mkStamp 2012 1 1 0 0 0 in
  valid a /\ valid b /\
  time.Before (fst (decodeTime (written a))) (fst (decodeTime (written b))) = true.
Proof.
  intros a b.
  assert (Ha : valid a) by closed_order.
  assert (Hb : valid b) by closed_order.
  repeat (split; [assumption|]).
  exact (decodeTime_keeps_calendar_order a b Ha Hb).
Defined.

Lemma line_without_colon_witness :
  let rd := text ["BEGIN:VCALENDAR"; "GARBAGE"; "END:VCALENDAR"] in
  let ls := [("BEGIN", "VCALENDAR")] in
  let l := Bytes_of "GARBAGE" in
  let rest := text ["END:VCALENDAR"] in
  let r := bufio.NewReader (l ++ LF :: rest) in
  reads (bufio.NewReader rd) ls r /\
  ~ finished (state_after ls) /\
  ~ In LF l /\ ~ In COLON l /\ trimCR l <> [] /\
  List.length l < bufio.defaultBufSize /\ not_continued rest /\
  Decode rd = Returns (None, Some (errors_New "bad line, couldn't find key:value")).
Proof.
  intros rd ls l rest r.
  assert (Hreads : reads (bufio.NewReader rd) ls r) by read_lines.
  assert (Hst : ~ finished (state_after ls)) by (simpl; tauto).
  assert (Hnl : ~ In LF l) by not_in_list.
  assert (Hnc : ~ In COLON l) by not_in_list.
  assert (Hb : trimCR l <> []) by discriminate.
  assert (Hlen : List.length l < bufio.defaultBufSize)
    by closed_lt.
  assert (Hrest : not_continued rest) by no_space_first.
  repeat (split; [assumption|]).
  exact (proj1 (line_without_colon_aborts_Decode rd ls r l rest Hreads Hst eq_refl
                  Hnl Hnc Hb Hlen Hrest)).
Defined.
